(** * Chat group orchestrator: turn scheduling and conversation history

    A shallow embedding of
    [promptflow/orchestrator/_chat_group_orchestrator.py]
    (class [ChatGroupOrchestrator]) and the properties of its turn
    scheduler.

    Modelling choices.
    - Python values are the inductive [pyval]; a [dict] is an association
      list in insertion order ([pydict]), with [dict_set] for [d[k] = v] and
      [dict_update] for [d.update(other)].
    - The collaborators that are imported by the module (the executor proxy
      factory, the executor proxies, the batch inputs processor and
      [apply_default_value_for_input]) are variables of the section: they
      act on an abstract world [W] and may raise.
    - Methods are computations of the monad [M]: they thread the world,
      may raise an [exn], and emit the sequence of calls made to the
      executor layer ([event]), each with the value it returned.
    - [bulk_logger] calls do not influence control flow and are left out;
      the data of the messages is kept in the exceptions.
    - An executor proxy returns a fresh [LineResult]: it does not keep or
      mutate the input dictionary it was called with. *)

From Stdlib Require Import String ZArith Bool Arith Lia List.
Import ListNotations.

Set Implicit Arguments.

(** ** Python values *)

Module Py.

(** Keys of dictionaries: turn indices and field names. *)
Inductive key : Type :=
| KInt (z : Z)
| KStr (s : string).

Definition key_eqb (a b : key) : bool :=
  match a, b with
  | KInt x, KInt y => Z.eqb x y
  | KStr x, KStr y => String.eqb x y
  | _, _ => false
  end.

#[warnings="-register-all"]
Inductive pyval : Type :=
| VNone
| VBool (b : bool)
| VInt (z : Z)
| VStr (s : string)
| VList (l : list pyval)
| VDict (d : list (key * pyval)).

Definition pydict : Type := list (key * pyval).

(** [d.get(k)] / [d[k]] *)
Fixpoint dict_get (V : Type) (d : list (key * V)) (k : key) : option V :=
  match d with
  | [] => None
  | (k', v) :: d' => if key_eqb k' k then Some v else dict_get d' k
  end.

(** [d[k] = v]: an existing key keeps its position, a new key goes last. *)
Fixpoint dict_set (V : Type) (d : list (key * V)) (k : key) (v : V)
  : list (key * V) :=
  match d with
  | [] => [(k, v)]
  | (k', v') :: d' =>
      if key_eqb k' k then (k', v) :: d' else (k', v') :: dict_set d' k v
  end.

(** [d.update(other)] *)
Definition dict_update (V : Type) (d other : list (key * V))
  : list (key * V) :=
  fold_left (fun acc kv => dict_set acc (fst kv) (snd kv)) other d.

Definition dict_keys (V : Type) (d : list (key * V)) : list key :=
  map fst d.

Definition dict_values (V : Type) (d : list (key * V)) : list V :=
  map snd d.

(** A dictionary has each key once. *)
Fixpoint dict_wfb (V : Type) (d : list (key * V)) : bool :=
  match d with
  | [] => true
  | (k, _) :: d' => negb (existsb (key_eqb k) (dict_keys d')) && dict_wfb d'
  end.

(** Python's [==] on the values above: [bool] is a subtype of [int],
    lists compare pointwise, dictionaries compare as mappings. *)
Fixpoint py_eqb (a b : pyval) {struct a} : bool :=
  match a, b with
  | VNone, VNone => true
  | VBool x, VBool y => Bool.eqb x y
  | VBool x, VInt y => Z.eqb (Z.b2z x) y
  | VInt x, VBool y => Z.eqb x (Z.b2z y)
  | VInt x, VInt y => Z.eqb x y
  | VStr x, VStr y => String.eqb x y
  | VList xs, VList ys =>
      (fix go (xs ys : list pyval) {struct xs} : bool :=
         match xs, ys with
         | [], [] => true
         | x :: xs', y :: ys' => py_eqb x y && go xs' ys'
         | _, _ => false
         end) xs ys
  | VDict d1, VDict d2 =>
      Nat.eqb (List.length d1) (List.length d2) &&
      (fix go (d : list (key * pyval)) {struct d} : bool :=
         match d with
         | [] => true
         | (k, v) :: d' =>
             match dict_get d2 k with
             | Some v' => py_eqb v v'
             | None => false
             end && go d'
         end) d1
  | _, _ => false
  end.

(** [x in l] and [l.count(x)] *)
Definition py_in (x : pyval) (l : list pyval) : bool :=
  existsb (fun e => py_eqb e x) l.

Definition py_count (x : pyval) (l : list pyval) : nat :=
  List.length (filter (fun e => py_eqb e x) l).

(** [range(n)] *)
Definition py_range (n : Z) : list Z :=
  map Z.of_nat (seq 0 (Z.to_nat n)).

End Py.
Import Py.

(** ** Exceptions *)

(** The three errors of [promptflow.orchestrator._errors] carry the data
    their messages are built from; the others are the built-in errors the
    interpreter raises, and [ExternalError] is anything a collaborator
    raises. *)
Inductive exn : Type :=
| InvalidChatRoleCount (count : nat)
| MissingConversationHistoryExpression (role name : string)
| MultipleConversationHistoryInputsMapping (role name : string)
| TypeError
| AttributeError
| ZeroDivisionError
| IndexError
| ExternalError (message : string).

(** ** Chat roles and line results *)

(** The fields of [ChatRole] the orchestrator reads; [flow_inputs] is
    [chat_role.flow.inputs]. *)
Record ChatRole : Type := {
  role : string;
  name : string;
  flow_file : string;
  working_dir : string;
  connections : pyval;
  flow_inputs : pyval;
  inputs_mapping : pydict;
  stop_signal : pyval
}.

(** [LineResult]: what an executor proxy returns for one turn, and what
    the orchestrator returns for one line.  The run metadata is only
    forwarded. *)
Record LineResult : Type := {
  output : pydict;
  aggregation_inputs : pydict;
  run_info : pyval;
  node_run_infos : pyval
}.

(** ** Scripted collaborators

    A two-role conversation with executors that answer by a fixed script;
    the properties below are exercised on it. *)

Module Example.

Definition expression : string := "${parent.conversation_history}".
Definition output_key : string := "conversation_history".

Definition mk_role (kind nm : string) (mapping : pydict) (stop : string)
  : ChatRole :=
  {| role := kind;
     name := nm;
     flow_file := String.append nm ".yaml";
     working_dir := ".";
     connections := VNone;
     flow_inputs := VNone;
     inputs_mapping := mapping;
     stop_signal := VStr stop |}.

Definition good_mapping : pydict :=
  [(KStr "question", VStr "${data.question}");
   (KStr "chat_history", VStr expression)].

Definition role_A (stop : string) : ChatRole :=
  mk_role "user" "A" good_mapping stop.
Definition role_B (stop : string) : ChatRole :=
  mk_role "assistant" "B" good_mapping stop.

(** No input bound to the history expression, and two of them. *)
Definition role_unbound : ChatRole :=
  mk_role "assistant" "C" [(KStr "question", VStr "${data.question}")] "bye".
Definition role_twice : ChatRole :=
  mk_role "assistant" "D"
    [(KStr "h1", VStr expression); (KStr "h2", VStr expression)] "bye".

(** The world counts the executor calls made so far; a handle is the name
    of the flow file it runs. *)
Definition create_proxy (r : ChatRole) (_ : option unit) (_ : pydict)
  (w : nat) : nat * (exn + string) :=
  (w, inr (flow_file r)).

(** A says "hi", B says "bye". *)
Definition exec_line (p : string) (_ : pydict) (_ : Z) (_ : pyval) (w : nat)
  : nat * (exn + LineResult) :=
  (S w,
   inr {| output :=
            [(KStr "msg", VStr (if String.eqb p "B.yaml" then "bye" else "hi"))];
          aggregation_inputs := [(KStr "call", VInt (Z.of_nat w))];
          run_info := VInt (Z.of_nat w);
          node_run_infos := VStr p |}).

(** An executor whose output has a field named "role". *)
Definition exec_line_role (p : string) (_ : pydict) (_ : Z) (_ : pyval)
  (w : nat) : nat * (exn + LineResult) :=
  (S w,
   inr {| output := [(KStr "role", VStr "system"); (KStr "msg", VStr "hi")];
          aggregation_inputs := [];
          run_info := VNone;
          node_run_infos := VNone |}).

(** The proxy of B cannot be created. *)
Definition create_proxy_B_fails (r : ChatRole) (_ : option unit) (_ : pydict)
  (w : nat) : nat * (exn + string) :=
  if String.eqb (name r) "B" then (w, inl (ExternalError "no such flow"))
  else (w, inr (flow_file r)).

(** The executor of B raises. *)
Definition exec_line_B_fails (p : string) (_ : pydict) (_ : Z) (_ : pyval)
  (w : nat) : nat * (exn + LineResult) :=
  if String.eqb p "B.yaml" then (S w, inl (ExternalError "flow failed"))
  else
    (S w,
     inr {| output := [(KStr "msg", VStr "hi")];
            aggregation_inputs := [];
            run_info := VNone;
            node_run_infos := VNone |}).

Definition destroy_ok (_ : string) (w : nat) : nat * (exn + unit) :=
  (w, inr tt).

(** The handle of A cannot be destroyed. *)
Definition destroy_A_fails (p : string) (w : nat) : nat * (exn + unit) :=
  if String.eqb p "A.yaml" then (w, inl (ExternalError "destroy failed"))
  else (w, inr tt).

Definition process_line (r : ChatRole) (_ : option Z) (_ : pyval) (w : nat)
  : nat * (exn + pydict) :=
  (w, inr (inputs_mapping r)).

Definition apply_default (_ : ChatRole) (d : pydict) (w : nat)
  : nat * (exn + pydict) :=
  (w, inr d).

End Example.

Section Orchestrator.

(** The state of everything outside the orchestrator. *)
Variable W : Type.
(** [AbstractExecutorProxy] handles and [AbstractRunStorage]. *)
Variables Proxy Storage : Type.

(** Calls made to the executor layer, each with what it returned. *)
Inductive event : Type :=
| EvCreate (chat_role : ChatRole) (res : exn + Proxy)
| EvExec (executor_proxy : Proxy) (input : pydict) (line_index : Z)
         (run_id : pyval) (res : exn + LineResult)
| EvDestroy (executor_proxy : Proxy) (res : exn + unit).

(** *** The collaborators *)

(** [ProxyFactory().create_executor_proxy(flow_file=..., working_dir=...,
    connections=..., storage=..., language=chat_role.check_language_from_yaml(),
    **kwargs)] *)
Variable create_executor_proxy :
  ChatRole -> option Storage -> pydict -> W -> W * (exn + Proxy).
(** [executor_proxy.exec_line_async(inputs, index, run_id)] *)
Variable exec_line_async :
  Proxy -> pydict -> Z -> pyval -> W -> W * (exn + LineResult).
(** [executor_proxy.destroy()] *)
Variable proxy_destroy : Proxy -> W -> W * (exn + unit).
(** [BatchInputsProcessor(chat_role.working_dir, chat_role.flow.inputs,
    max_lines_count)._process_batch_inputs_line(inputs,
    chat_role.inputs_mapping)] *)
Variable process_batch_inputs_line :
  ChatRole -> option Z -> pyval -> W -> W * (exn + pydict).
(** [apply_default_value_for_input(chat_role.flow.inputs, batch_input)] *)
Variable apply_default_value_for_input :
  ChatRole -> pydict -> W -> W * (exn + pydict).
(** The two constants imported from [promptflow._constants]. *)
Variable CONVERSATION_HISTORY_EXPRESSION : string.
Variable CONVERSATION_HISTORY_OUTPUT_KEY : string.

(** *** The monad of methods *)

Definition M (A : Type) : Type := W -> W * list event * (exn + A).

Definition ret (A : Type) (a : A) : M A :=
  fun w => (w, [], inr a).

Definition raise (A : Type) (e : exn) : M A :=
  fun w => (w, [], inl e).
Arguments raise {A} e.

Definition bind (A B : Type) (m : M A) (f : A -> M B) : M B :=
  fun w =>
    match m w with
    | (w1, t1, inl e) => (w1, t1, inl e)
    | (w1, t1, inr a) =>
        match f a w1 with
        | (w2, t2, r) => (w2, t1 ++ t2, r)
        end
    end.

Notation "x <- m ;; k" := (bind m (fun x => k))
  (at level 61, m at next level, right associativity).

(** A call that leaves no event. *)
Definition call (A : Type) (f : W -> W * (exn + A)) : M A :=
  fun w => match f w with (w', res) => (w', [], res) end.

(** A call to the executor layer, recorded with its result. *)
Definition call_ev (A : Type) (f : W -> W * (exn + A))
  (ev : exn + A -> event) : M A :=
  fun w => match f w with (w', res) => (w', [ev res], res) end.

(** [for x in xs: s = body x s] *)
Fixpoint for_each (A S : Type) (xs : list A) (body : A -> S -> M S) (s : S)
  : M S :=
  match xs with
  | [] => ret s
  | x :: xs' => s' <- body x s ;; for_each xs' body s'
  end.

(** The same with [break]: the body returns [true] to leave the loop. *)
Fixpoint for_break (A S : Type) (xs : list A) (body : A -> S -> M (S * bool))
  (s : S) : M S :=
  match xs with
  | [] => ret s
  | x :: xs' =>
      r <- body x s ;;
      if snd r then ret (fst r) else for_break xs' body (fst r)
  end.

(** [l[i]] on a list, negative indices counted from the end. *)
Definition norm_index (len : nat) (i : Z) : option nat :=
  if (0 <=? i)%Z then
    if (i <? Z.of_nat len)%Z then Some (Z.to_nat i) else None
  else
    if (- Z.of_nat len <=? i)%Z then Some (Z.to_nat (Z.of_nat len + i))
    else None.

Definition list_index (A : Type) (l : list A) (i : Z) : M A :=
  match norm_index (length l) i with
  | Some n =>
      match nth_error l n with
      | Some a => ret a
      | None => raise IndexError
      end
  | None => raise IndexError
  end.

(** [a % b] *)
Definition py_mod (a b : Z) : M Z :=
  if (b =? 0)%Z then raise ZeroDivisionError else ret (a mod b)%Z.

(** Replace the element at position [n] (the object [l[n]] was updated in
    place). *)
Fixpoint list_set (A : Type) (l : list A) (n : nat) (a : A) : list A :=
  match l, n with
  | [], _ => []
  | _ :: l', O => a :: l'
  | x :: l', S n' => x :: list_set l' n' a
  end.

(** *** The class *)

Record ChatGroupOrchestrator : Type := {
  _storage : option Storage;
  _max_turn : option Z;
  _chat_group_roles : list ChatRole;
  _max_lines_count : option Z;
  _executor_proxies : list Proxy
}.

(** [_create_executor_proxy(self, **kwargs)], reading
    [self._chat_group_roles] and [self._storage]. *)
Definition _create_executor_proxy (chat_group_roles : list ChatRole)
  (storage : option Storage) (kwargs : pydict) : M (list Proxy) :=
  for_each chat_group_roles
    (fun chat_role executor_proxy_list =>
       executor_proxy <-
         call_ev (create_executor_proxy chat_role storage kwargs)
                 (EvCreate chat_role) ;;
       ret (executor_proxy_list ++ [executor_proxy]))
    [].

Definition __init__ (chat_group_roles : list ChatRole) (max_turn : option Z)
  (storage : option Storage) (max_lines_count : option Z) (kwargs : pydict)
  : M ChatGroupOrchestrator :=
  if length chat_group_roles <? 2 then
    raise (InvalidChatRoleCount (length chat_group_roles))
  else
    executor_proxies <-
      _create_executor_proxy chat_group_roles storage kwargs ;;
    ret {| _storage := storage;
           _max_turn := max_turn;
           _chat_group_roles := chat_group_roles;
           _max_lines_count := max_lines_count;
           _executor_proxies := executor_proxies |}.

(** [create(cls, chat_group_roles, max_turn, storage, max_lines_count)] *)
Definition create (chat_group_roles : list ChatRole) (max_turn : option Z)
  (storage : option Storage) (max_lines_count : option Z)
  : M ChatGroupOrchestrator :=
  __init__ chat_group_roles max_turn storage max_lines_count [].

Definition destroy (self : ChatGroupOrchestrator) : M unit :=
  for_each (_executor_proxies self)
    (fun executor_proxy _ =>
       call_ev (proxy_destroy executor_proxy) (EvDestroy executor_proxy))
    tt.

(** [_process_flow_outputs]: the three containers it mutates are returned
    as (conversation_history, outputs, aggregation_inputs_), the last
    being the local dictionary [aggregation_inputs] of the caller. *)
Definition _process_flow_outputs (index : Z) (chat_role : ChatRole)
  (current_line_result : LineResult) (conversation_history : list pyval)
  (outputs aggregation_inputs_ : pydict)
  : list pyval * pydict * pydict :=
  let current_turn := [(KStr "role", VStr (role chat_role))] in
  let current_turn := dict_update current_turn (output current_line_result) in
  (conversation_history ++ [VDict current_turn],
   dict_update outputs [(KInt index, VDict current_turn)],
   dict_update aggregation_inputs_
     [(KInt index, VDict (aggregation_inputs current_line_result))]).

(** The body of [for chat_role in self._chat_group_roles] in
    [_process_batch_inputs]. *)
Definition process_role_inputs (self : ChatGroupOrchestrator)
  (inputs : pyval) (chat_role : ChatRole) (batch_inputs : list pydict)
  : M (list pydict) :=
  let values := dict_values (inputs_mapping chat_role) in
  if negb (py_in (VStr CONVERSATION_HISTORY_EXPRESSION) values) then
    raise (MissingConversationHistoryExpression
             (role chat_role) (name chat_role))
  else
    let conversation_mapping_count :=
      py_count (VStr CONVERSATION_HISTORY_EXPRESSION) values in
    if 1 <? conversation_mapping_count then
      raise (MultipleConversationHistoryInputsMapping
               (role chat_role) (name chat_role))
    else
      batch_input <-
        call (process_batch_inputs_line chat_role
                (_max_lines_count self) inputs) ;;
      resolved_batch_input <-
        call (apply_default_value_for_input chat_role batch_input) ;;
      ret (batch_inputs ++ [resolved_batch_input]).

Definition _process_batch_inputs (self : ChatGroupOrchestrator)
  (inputs : pyval) : M (list pydict) :=
  for_each (_chat_group_roles self) (process_role_inputs self inputs) [].

(** [next((key for key, value in mapping.items()
          if value == CONVERSATION_HISTORY_EXPRESSION), None)] *)
Definition conversation_history_key_of (mapping : pydict) : option key :=
  option_map fst
    (find (fun kv => py_eqb (snd kv) (VStr CONVERSATION_HISTORY_EXPRESSION))
          mapping).

(** [any(value == chat_role.stop_signal
         for value in current_line_result.output.values())] *)
Definition stop_matched (chat_role : ChatRole)
  (current_line_result : LineResult) : bool :=
  existsb (fun value => py_eqb value (stop_signal chat_role))
          (dict_values (output current_line_result)).

(** The local variables of [_schedule_line_runs] that live across turns. *)
Record Locals : Type := {
  batch_inputs : list pydict;
  conversation_history : list pyval;
  outputs : pydict;
  aggregation_inputs_ : pydict;
  current_line_result : option LineResult
}.

(** The body of [for turn in range(self._max_turn)]; [true] is [break].

    [chat_role_input[conversation_history_key] = conversation_history]
    stores the list itself in the resolved input of the role, which is
    updated in place.  The executor is called, and returns, before the
    list grows, so the input it receives holds the history of the turns
    before this one; the entry is written again at the next turn of the
    role before it is read.  [role_index] is not negative, [turn] coming
    from [range] and [total_roles] from [len]. *)
Definition turn_body (self : ChatGroupOrchestrator) (line_index : Z)
  (run_id : pyval) (turn : Z) (l : Locals) : M (Locals * bool) :=
  let total_roles := Z.of_nat (length (_chat_group_roles self)) in
  role_index <- py_mod turn total_roles ;;
  executor_proxy <- list_index (_executor_proxies self) role_index ;;
  chat_role <- list_index (_chat_group_roles self) role_index ;;
  chat_role_input <- list_index (batch_inputs l) role_index ;;
  match conversation_history_key_of (inputs_mapping chat_role) with
  | None =>
      raise (MissingConversationHistoryExpression
               (role chat_role) (name chat_role))
  | Some conversation_history_key =>
      let chat_role_input :=
        dict_set chat_role_input conversation_history_key
                 (VList (conversation_history l)) in
      let batch_inputs' :=
        list_set (batch_inputs l) (Z.to_nat role_index) chat_role_input in
      result <-
        call_ev (exec_line_async executor_proxy chat_role_input
                                 line_index run_id)
                (EvExec executor_proxy chat_role_input line_index run_id) ;;
      match _process_flow_outputs turn chat_role result
              (conversation_history l) (outputs l) (aggregation_inputs_ l)
      with
      | (history', outputs', aggregation') =>
          ret ({| batch_inputs := batch_inputs';
                  conversation_history := history';
                  outputs := outputs';
                  aggregation_inputs_ := aggregation';
                  current_line_result := Some result |},
               stop_matched chat_role result)
      end
  end.

Definition _schedule_line_runs (self : ChatGroupOrchestrator)
  (line_index : Z) (inputs : pyval) (run_id : pyval) : M LineResult :=
  batch_inputs <- _process_batch_inputs self inputs ;;
  match _max_turn self with
  | None => raise TypeError
  | Some max_turn =>
      l <- for_break (py_range max_turn)
             (turn_body self line_index run_id)
             {| batch_inputs := batch_inputs;
                conversation_history := [];
                outputs := [];
                aggregation_inputs_ := [];
                current_line_result := None |} ;;
      let outputs :=
        dict_update (outputs l)
          [(KStr CONVERSATION_HISTORY_OUTPUT_KEY,
            VList (conversation_history l))] in
      match current_line_result l with
      | None => raise AttributeError
      | Some current_line_result =>
          ret {| output := outputs;
                 aggregation_inputs := aggregation_inputs_ l;
                 node_run_infos := node_run_infos current_line_result;
                 run_info := run_info current_line_result |}
      end
  end.


(** *** The turn loop as a transition system *)

(** The state between two turns: how many turns have completed, the calls
    made so far, the local variables, whether the last turn hit [break],
    and the world. *)
Record SchedState : Type := {
  turn_no : nat;
  calls : list event;
  locals : Locals;
  stopped : bool;
  world : W
}.

(** The state on entering the loop, [batch_inputs] being resolved. *)
Definition init_state (batch_inputs : list pydict) (w : W) : SchedState :=
  {| turn_no := 0;
     calls := [];
     locals := {| batch_inputs := batch_inputs;
                  conversation_history := [];
                  outputs := [];
                  aggregation_inputs_ := [];
                  current_line_result := None |};
     stopped := false;
     world := w |}.

(** One completed turn. *)
Inductive step (self : ChatGroupOrchestrator) (line_index : Z)
  (run_id : pyval) : SchedState -> SchedState -> Prop :=
| step_turn : forall s max_turn w' evs l' b,
    _max_turn self = Some max_turn ->
    (Z.of_nat (turn_no s) < max_turn)%Z ->
    stopped s = false ->
    turn_body self line_index run_id (Z.of_nat (turn_no s))
              (locals s) (world s) = (w', evs, inr (l', b)) ->
    step self line_index run_id s
         {| turn_no := S (turn_no s);
            calls := calls s ++ evs;
            locals := l';
            stopped := b;
            world := w' |}.

Inductive steps (self : ChatGroupOrchestrator) (line_index : Z)
  (run_id : pyval) (s : SchedState) : SchedState -> Prop :=
| steps_refl : steps self line_index run_id s s
| steps_snoc : forall s1 s2,
    steps self line_index run_id s s1 ->
    step self line_index run_id s1 s2 ->
    steps self line_index run_id s s2.

(** *** Observations on the calls of a run *)

Definition is_exec (ev : event) : bool :=
  match ev with
  | EvExec _ _ _ _ _ => true
  | _ => false
  end.

(** The number of executor invocations, that is of turns started. *)
Definition executed_turns (evs : list event) : nat :=
  length (filter is_exec evs).

(** The results of the turns that completed. *)
Fixpoint exec_results (evs : list event) : list LineResult :=
  match evs with
  | [] => []
  | EvExec _ _ _ _ (inr result) :: evs' => result :: exec_results evs'
  | _ :: evs' => exec_results evs'
  end.

(** The role whose turn it is at turn [t]. *)
Definition active_role (self : ChatGroupOrchestrator) (t : nat)
  : option ChatRole :=
  nth_error (_chat_group_roles self) (t mod length (_chat_group_roles self)).

Definition active_proxy (self : ChatGroupOrchestrator) (t : nat)
  : option Proxy :=
  nth_error (_executor_proxies self) (t mod length (_chat_group_roles self)).

(** The history record of a turn: [{"role": kind}] extended with the
    fields of the output. *)
Definition turn_record (chat_role : ChatRole) (result : LineResult) : pyval :=
  VDict (dict_update [(KStr "role", VStr (role chat_role))] (output result)).

(** Every call from turn [t] on is an executor call that returned, and its
    output does not match the stop signal of the role of that turn. *)
Fixpoint turns_without_stop (self : ChatGroupOrchestrator) (t : nat)
  (evs : list event) : bool :=
  match evs with
  | [] => true
  | EvExec _ _ _ _ (inr result) :: evs' =>
      match active_role self t with
      | Some chat_role => negb (stop_matched chat_role result)
      | None => false
      end && turns_without_stop self (S t) evs'
  | _ :: _ => false
  end.

(** The output of the line result a run returned. *)
Definition returned_output (run : W * list event * (exn + LineResult))
  : option pydict :=
  match run with
  | (_, _, inr line_result) => Some (output line_result)
  | _ => None
  end.

(** The handles a sequence of [create_executor_proxy] calls returned. *)
Fixpoint created (evs : list event) : list Proxy :=
  match evs with
  | [] => []
  | EvCreate _ (inr p) :: evs' => p :: created evs'
  | _ :: evs' => created evs'
  end.

(** The handles a sequence of [destroy] calls was made on. *)
Fixpoint destroyed (evs : list event) : list Proxy :=
  match evs with
  | [] => []
  | EvDestroy p _ :: evs' => p :: destroyed evs'
  | _ :: evs' => destroyed evs'
  end.

(** The number of bindings of the history expression in a role. *)
Definition history_bindings (chat_role : ChatRole) : nat :=
  py_count (VStr CONVERSATION_HISTORY_EXPRESSION)
           (dict_values (inputs_mapping chat_role)).

(** The keys [0 .. k-1] of the turn-indexed dictionaries. *)
Definition turn_keys (k : nat) : list key :=
  map (fun t => KInt (Z.of_nat t)) (seq 0 k).

(** The result of the last turn that completed. *)
Definition last_result (results : list LineResult) : option LineResult :=
  nth_error results (pred (length results)).

(** What holds between two turns of one line. *)
Definition sched_inv (self : ChatGroupOrchestrator) (line_index : Z)
  (run_id : pyval) (s : SchedState) : Prop :=
  let k := turn_no s in
  let l := locals s in
  let results := exec_results (calls s) in
  length (calls s) = k /\
  length results = k /\
  length (conversation_history l) = k /\
  outputs l = combine (turn_keys k) (conversation_history l) /\
  aggregation_inputs_ l =
    combine (turn_keys k)
            (map (fun r => VDict (aggregation_inputs r)) results) /\
  current_line_result l = last_result results /\
  turns_without_stop self 0 (calls s) = negb (stopped s) /\
  turns_without_stop self 0 (removelast (calls s)) = true /\
  forall t, t < k ->
    exists p r input result k_history,
      nth_error (calls s) t =
        Some (EvExec p input line_index run_id (inr result)) /\
      nth_error results t = Some result /\
      active_proxy self t = Some p /\
      active_role self t = Some r /\
      nth_error (conversation_history l) t = Some (turn_record r result) /\
      conversation_history_key_of (inputs_mapping r) = Some k_history /\
      dict_get input k_history =
        Some (VList (firstn t (conversation_history l))) /\
      (stop_matched r result = true -> S t = k /\ stopped s = true).

(** ** Properties *)

(** *** Dictionaries *)

Lemma key_eqb_eq (a b : key) : key_eqb a b = true <-> a = b.
Proof.
  destruct a as [x|x], b as [y|y]; simpl; split; intro H;
    try discriminate; try congruence.
  - apply Z.eqb_eq in H. congruence.
  - apply Z.eqb_eq. congruence.
  - apply String.eqb_eq in H. congruence.
  - apply String.eqb_eq. congruence.
Qed.

Lemma key_eqb_refl (a : key) : key_eqb a a = true.
Proof. now apply key_eqb_eq. Qed.

Lemma key_eqb_neq (a b : key) : key_eqb a b = false <-> a <> b.
Proof.
  split.
  - intros H E. apply key_eqb_eq in E. congruence.
  - intro H. destruct (key_eqb a b) eqn:E; [|reflexivity].
    apply key_eqb_eq in E. contradiction.
Qed.

Lemma dict_get_set_same (V : Type) (d : list (key * V)) k v :
  dict_get (dict_set d k v) k = Some v.
Proof.
  induction d as [|[k' v'] d IH]; simpl.
  - now rewrite key_eqb_refl.
  - destruct (key_eqb k' k) eqn:E; simpl; rewrite E; auto.
Qed.

Lemma dict_get_set_other (V : Type) (d : list (key * V)) k k' v :
  k <> k' -> dict_get (dict_set d k v) k' = dict_get d k'.
Proof.
  intro Hne. induction d as [|[k1 v1] d IH]; simpl.
  - apply key_eqb_neq in Hne. now rewrite Hne.
  - destruct (key_eqb k1 k) eqn:E; simpl.
    + apply key_eqb_eq in E. subst k1.
      apply key_eqb_neq in Hne. now rewrite Hne.
    + now rewrite IH.
Qed.

Lemma dict_get_None_keys (V : Type) (d : list (key * V)) k :
  dict_get d k = None <-> existsb (key_eqb k) (dict_keys d) = false.
Proof.
  induction d as [|[k1 v1] d IH]; simpl; [tauto|].
  destruct (key_eqb k1 k) eqn:E.
  - apply key_eqb_eq in E. subst. rewrite key_eqb_refl. simpl.
    split; discriminate.
  - assert (key_eqb k k1 = false) as ->.
    { apply key_eqb_neq. apply key_eqb_neq in E. congruence. }
    simpl. exact IH.
Qed.

(** Setting a key that is not bound adds the binding at the end. *)
Lemma dict_set_fresh (V : Type) (d : list (key * V)) k v :
  dict_get d k = None -> dict_set d k v = d ++ [(k, v)].
Proof.
  induction d as [|[k1 v1] d IH]; simpl; [reflexivity|].
  destruct (key_eqb k1 k); [discriminate|].
  intro H. now rewrite IH.
Qed.

Lemma dict_update_get_notin (V : Type) (other d : list (key * V)) k :
  dict_get other k = None ->
  dict_get (dict_update d other) k = dict_get d k.
Proof.
  revert d. induction other as [|[k1 v1] other IH]; intros d H; simpl in *.
  - reflexivity.
  - destruct (key_eqb k1 k) eqn:E; [discriminate|].
    fold (dict_update (dict_set d k1 v1) other).
    rewrite (IH _ H). apply dict_get_set_other.
    now apply key_eqb_neq.
Qed.

(** After [d.update(other)] every field of [other] is in [d]. *)
Lemma dict_update_get (V : Type) (other d : list (key * V)) k v :
  dict_wfb other = true ->
  dict_get other k = Some v ->
  dict_get (dict_update d other) k = Some v.
Proof.
  revert d. induction other as [|[k1 v1] other IH]; intros d Hwf H;
    simpl in *; [discriminate|].
  apply andb_true_iff in Hwf. destruct Hwf as [Hk1 Hwf].
  fold (dict_update (dict_set d k1 v1) other).
  destruct (key_eqb k1 k) eqn:E.
  - apply key_eqb_eq in E. subst k1. injection H as ->.
    rewrite dict_update_get_notin.
    + apply dict_get_set_same.
    + apply dict_get_None_keys. now apply negb_true_iff in Hk1.
  - now apply IH.
Qed.

(** *** The monad *)

Lemma bind_inv (A B : Type) (m : M A) (f : A -> M B) w w' t r :
  bind m f w = (w', t, r) ->
  (exists e, m w = (w', t, inl e) /\ r = inl e) \/
  (exists w1 t1 a t2,
      m w = (w1, t1, inr a) /\ f a w1 = (w', t2, r) /\ t = t1 ++ t2).
Proof.
  unfold bind. destruct (m w) as [[w1 t1] [e|a]].
  - intro H. injection H as <- <- <-. left. now exists e.
  - destruct (f a w1) as [[w2 t2] r2] eqn:Ef.
    intro H. injection H as <- <- <-. right.
    now exists w1, t1, a, t2.
Qed.

Lemma list_index_nat (A : Type) (l : list A) (n : nat) w :
  list_index l (Z.of_nat n) w =
  match nth_error l n with
  | Some a => (w, [], inr a)
  | None => (w, [], inl IndexError)
  end.
Proof.
  unfold list_index, norm_index.
  destruct (0 <=? Z.of_nat n)%Z eqn:E0; [|apply Z.leb_gt in E0; lia].
  destruct (Z.of_nat n <? Z.of_nat (length l))%Z eqn:E1.
  - rewrite Nat2Z.id. now destruct (nth_error l n).
  - apply Z.ltb_ge in E1.
    assert (nth_error l n = None) as -> by (apply nth_error_None; lia).
    reflexivity.
Qed.

Lemma py_mod_nat (t n : nat) w :
  py_mod (Z.of_nat t) (Z.of_nat n) w =
  if n =? 0 then (w, [], inl ZeroDivisionError)
  else (w, [], inr (Z.of_nat (t mod n))).
Proof.
  unfold py_mod. destruct n as [|n]; [reflexivity|].
  replace (Z.of_nat (S n) =? 0)%Z with false
    by (symmetry; apply Z.eqb_neq; lia).
  simpl (S n =? 0). unfold ret. now rewrite Nat2Z.inj_mod.
Qed.

(** *** One turn *)

(** What a turn does: either it fails before calling the executor, or it
    calls the executor of the active role once, with the history in the
    bound input, and on return extends the local variables. *)
Lemma turn_body_cases self li rid (t : nat) l w w' evs res :
  turn_body self li rid (Z.of_nat t) l w = (w', evs, res) ->
  let n := length (_chat_group_roles self) in
  (evs = [] /\ w' = w /\ (exists e, res = inl e) /\
   (n = 0 \/ active_proxy self t = None \/ active_role self t = None \/
    nth_error (batch_inputs l) (t mod n) = None \/
    exists r, active_role self t = Some r /\
              conversation_history_key_of (inputs_mapping r) = None)) \/
  (exists p r ci k out,
      n <> 0 /\
      active_proxy self t = Some p /\
      active_role self t = Some r /\
      nth_error (batch_inputs l) (t mod n) = Some ci /\
      conversation_history_key_of (inputs_mapping r) = Some k /\
      let input := dict_set ci k (VList (conversation_history l)) in
      exec_line_async p input li rid w = (w', out) /\
      evs = [EvExec p input li rid out] /\
      match out with
      | inl e => res = inl e
      | inr result =>
          exists l', res = inr (l', stop_matched r result) /\
            batch_inputs l' = list_set (batch_inputs l) (t mod n) input /\
            conversation_history l' =
              conversation_history l ++ [turn_record r result] /\
            outputs l' =
              dict_update (outputs l)
                [(KInt (Z.of_nat t), turn_record r result)] /\
            aggregation_inputs_ l' =
              dict_update (aggregation_inputs_ l)
                [(KInt (Z.of_nat t), VDict (aggregation_inputs result))] /\
            current_line_result l' = Some result
      end).
Proof.
  intros H n. subst n. unfold turn_body, active_proxy, active_role in *.
  set (n := length (_chat_group_roles self)) in *.
  unfold bind in H. rewrite py_mod_nat in H.
  destruct (n =? 0) eqn:En.
  { apply Nat.eqb_eq in En. injection H as <- <- <-.
    left. repeat split; eauto. }
  apply Nat.eqb_neq in En.
  rewrite list_index_nat in H.
  destruct (nth_error (_executor_proxies self) (t mod n)) as [p|] eqn:Ep.
  2:{ injection H as <- <- <-. left. repeat split; eauto. }
  rewrite list_index_nat in H.
  destruct (nth_error (_chat_group_roles self) (t mod n)) as [r|] eqn:Er.
  2:{ injection H as <- <- <-. left. repeat split; eauto. }
  rewrite list_index_nat in H.
  destruct (nth_error (batch_inputs l) (t mod n)) as [ci|] eqn:Eci.
  2:{ injection H as <- <- <-. left. repeat split; eauto 6. }
  destruct (conversation_history_key_of (inputs_mapping r)) as [k|] eqn:Ek.
  2:{ injection H as <- <- <-. left. repeat split; eauto 10. }
  right. exists p, r, ci, k.
  unfold call_ev in H. rewrite Nat2Z.id in H.
  destruct (exec_line_async p _ li rid w) as [w1 out] eqn:Ex.
  exists out. simpl in H.
  destruct out as [e|result].
  - injection H as <- <- <-. repeat split; auto.
  - unfold _process_flow_outputs, ret in H. injection H as <- <- <-.
    repeat split; auto. eexists. split; [reflexivity|].
    simpl. repeat split; reflexivity.
Qed.

(** *** The loop and the transition system *)

Lemma steps_step_l self li rid s s1 s2 :
  step self li rid s s1 -> steps self li rid s1 s2 -> steps self li rid s s2.
Proof.
  intros H1 H2. induction H2.
  - eapply steps_snoc; [apply steps_refl|exact H1].
  - eapply steps_snoc; eauto.
Qed.

(** The [for] loop of [_schedule_line_runs], started between two turns,
    follows the transition system: it ends after a turn that hit [break]
    or with the turn budget used up, or it fails in the body of a turn. *)
Lemma for_break_steps self li rid max_turn :
  _max_turn self = Some max_turn ->
  forall n s w' evs res,
    stopped s = false ->
    turn_no s + n = Z.to_nat max_turn ->
    for_break (map Z.of_nat (seq (turn_no s) n)) (turn_body self li rid)
              (locals s) (world s) = (w', evs, res) ->
    match res with
    | inr l' =>
        exists s', steps self li rid s s' /\ locals s' = l' /\
                   world s' = w' /\ calls s' = calls s ++ evs /\
                   (stopped s' = true \/ turn_no s' = Z.to_nat max_turn)
    | inl e =>
        exists s' evs1 evs2,
          steps self li rid s s' /\ stopped s' = false /\
          turn_no s' < Z.to_nat max_turn /\
          calls s' = calls s ++ evs1 /\ evs = evs1 ++ evs2 /\
          turn_body self li rid (Z.of_nat (turn_no s')) (locals s') (world s')
          = (w', evs2, inl e)
    end.
Proof.
  intros HM. induction n as [|n IH]; intros s w' evs res Hs Hn H.
  - simpl in H. unfold ret in H. injection H as <- <- <-.
    exists s. rewrite app_nil_r. repeat split; auto using steps_refl.
    right. lia.
  - simpl in H. apply bind_inv in H.
    destruct H as [(e & Hb & ->) | (w1 & t1 & [l1 b] & t2 & Hb & Hk & ->)].
    + exists s, [], evs. rewrite app_nil_r.
      repeat split; auto using steps_refl. lia.
    + set (s1 := {| turn_no := S (turn_no s); calls := calls s ++ t1;
                    locals := l1; stopped := b; world := w1 |}).
      assert (Hstep : step self li rid s s1).
      { eapply step_turn; eauto. lia. }
      simpl in Hk. destruct b.
      * unfold ret in Hk. injection Hk as <- <- <-.
        exists s1. rewrite app_nil_r. repeat split; auto.
        eapply steps_snoc; [apply steps_refl|exact Hstep].
      * specialize (IH s1 w' t2 res eq_refl).
        simpl in IH. specialize (IH ltac:(lia) Hk).
        destruct res as [e|l'].
        -- destruct IH as (s' & e1 & e2 & Hst & Hf & Hlt & Hc & -> & Hb').
           exists s', (t1 ++ e1), e2.
           repeat split; auto.
           ++ eapply steps_step_l; eauto.
           ++ rewrite Hc. now rewrite app_assoc.
           ++ now rewrite app_assoc.
        -- destruct IH as (s' & Hst & Hl & Hw & Hc & Hfin).
           exists s'. repeat split; auto.
           ++ eapply steps_step_l; eauto.
           ++ rewrite Hc. now rewrite app_assoc.
Qed.

(** *** Turn-indexed dictionaries *)

Lemma turn_keys_S k : turn_keys (S k) = turn_keys k ++ [KInt (Z.of_nat k)].
Proof. unfold turn_keys. now rewrite seq_S, map_app. Qed.

Lemma turn_keys_length k : length (turn_keys k) = k.
Proof. unfold turn_keys. now rewrite length_map, length_seq. Qed.

Lemma combine_snoc (A B : Type) (xs : list A) (ys : list B) x y :
  length xs = length ys ->
  combine (xs ++ [x]) (ys ++ [y]) = combine xs ys ++ [(x, y)].
Proof.
  revert ys. induction xs as [|a xs IH]; intros [|b ys] H; simpl in *;
    try discriminate; [reflexivity|].
  f_equal. apply IH. now injection H.
Qed.

Lemma dict_get_combine_seq (V : Type) k :
  forall a (vs : list V) t,
    dict_get (combine (map (fun t => KInt (Z.of_nat t)) (seq a k)) vs)
             (KInt (Z.of_nat (a + t)))
    = if t <? k then nth_error vs t else None.
Proof.
  induction k as [|k IH]; intros a vs t; simpl.
  - reflexivity.
  - destruct vs as [|v vs]; simpl.
    + destruct (t <? S k); [now destruct t|reflexivity].
    + destruct t as [|t].
      * rewrite Nat.add_0_r, Z.eqb_refl. reflexivity.
      * replace (Z.of_nat a =? Z.of_nat (a + S t))%Z with false
          by (symmetry; apply Z.eqb_neq; lia).
        replace (a + S t) with (S a + t) by lia.
        rewrite IH. reflexivity.
Qed.

Lemma dict_get_turn_keys (V : Type) k (vs : list V) t :
  dict_get (combine (turn_keys k) vs) (KInt (Z.of_nat t))
  = if t <? k then nth_error vs t else None.
Proof. apply (dict_get_combine_seq k 0 vs t). Qed.

Lemma dict_get_In_keys (V : Type) (d : list (key * V)) k v :
  dict_get d k = Some v -> In k (dict_keys d).
Proof.
  induction d as [|[k1 v1] d IH]; simpl; [discriminate|].
  destruct (key_eqb k1 k) eqn:E.
  - apply key_eqb_eq in E. auto.
  - auto.
Qed.

(** A turn-indexed dictionary binds turn indices only. *)
Lemma dict_get_turn_keys_other (V : Type) k (vs : list V) key :
  (forall t, t < k -> key <> KInt (Z.of_nat t)) ->
  dict_get (combine (turn_keys k) vs) key = None.
Proof.
  intro H. destruct (dict_get _ key) as [v|] eqn:E; [|reflexivity].
  apply dict_get_In_keys in E. exfalso.
  assert (Hin : In key (turn_keys k)).
  { unfold dict_keys in E. apply in_map_iff in E.
    destruct E as ([k1 v1] & <- & Hin). now apply in_combine_l in Hin. }
  unfold turn_keys in Hin. apply in_map_iff in Hin.
  destruct Hin as (t & <- & Ht). apply in_seq in Ht.
  apply (H t); [lia|reflexivity].
Qed.

(** Recording turn [k] in a dictionary of the turns before it. *)
Lemma dict_update_turn (V : Type) k (vs : list V) v :
  length vs = k ->
  dict_update (combine (turn_keys k) vs) [(KInt (Z.of_nat k), v)]
  = combine (turn_keys (S k)) (vs ++ [v]).
Proof.
  intro H. unfold dict_update. cbn [fold_left fst snd].
  rewrite dict_set_fresh.
  - rewrite turn_keys_S, combine_snoc; [reflexivity|].
    now rewrite turn_keys_length.
  - rewrite dict_get_turn_keys, Nat.ltb_irrefl. reflexivity.
Qed.

(** *** Calls *)

Lemma exec_results_app evs1 evs2 :
  exec_results (evs1 ++ evs2) = exec_results evs1 ++ exec_results evs2.
Proof.
  induction evs1 as [|ev evs1 IH]; simpl; [reflexivity|].
  destruct ev as [| ? ? ? ? [?|?] |]; simpl; now rewrite IH.
Qed.

Lemma turns_without_stop_app self evs1 : forall t evs2,
  turns_without_stop self t (evs1 ++ evs2) =
  turns_without_stop self t evs1
  && turns_without_stop self (t + length evs1) evs2.
Proof.
  induction evs1 as [|ev evs1 IH]; intros t evs2; simpl.
  - now rewrite Nat.add_0_r.
  - destruct ev as [| ? ? ? ? [?|?] |]; simpl; try reflexivity.
    rewrite IH. replace (S t + length evs1) with (t + S (length evs1)) by lia.
    now rewrite andb_assoc.
Qed.

Lemma last_result_snoc results result :
  last_result (results ++ [result]) = Some result.
Proof.
  unfold last_result. rewrite length_app. simpl.
  replace (pred (length results + 1)) with (length results) by lia.
  rewrite nth_error_app2 by lia. now rewrite Nat.sub_diag.
Qed.

(** *** The invariant of the loop *)

(** A completed turn, read off [turn_body]. *)
Lemma step_inv self li rid s s' :
  step self li rid s s' ->
  exists p r ci k result,
    let n := length (_chat_group_roles self) in
    let input := dict_set ci k (VList (conversation_history (locals s))) in
    active_proxy self (turn_no s) = Some p /\
    active_role self (turn_no s) = Some r /\
    nth_error (batch_inputs (locals s)) (turn_no s mod n) = Some ci /\
    conversation_history_key_of (inputs_mapping r) = Some k /\
    exec_line_async p input li rid (world s) = (world s', inr result) /\
    turn_no s' = S (turn_no s) /\
    calls s' = calls s ++ [EvExec p input li rid (inr result)] /\
    stopped s' = stop_matched r result /\
    batch_inputs (locals s') =
      list_set (batch_inputs (locals s)) (turn_no s mod n) input /\
    conversation_history (locals s') =
      conversation_history (locals s) ++ [turn_record r result] /\
    outputs (locals s') =
      dict_update (outputs (locals s))
        [(KInt (Z.of_nat (turn_no s)), turn_record r result)] /\
    aggregation_inputs_ (locals s') =
      dict_update (aggregation_inputs_ (locals s))
        [(KInt (Z.of_nat (turn_no s)), VDict (aggregation_inputs result))] /\
    current_line_result (locals s') = Some result.
Proof.
  intros H. destruct H as [s max_turn w' evs l' b HM Hlt Hs Hb].
  apply turn_body_cases in Hb.
  destruct Hb as [(_ & _ & (e & He) & _) | Hb]; [discriminate|].
  destruct Hb as (p & r & ci & k & out & Hn & Hp & Hr & Hci & Hk & Hb).
  cbv zeta in Hb. destruct Hb as (Hx & -> & Hout).
  destruct out as [e|result]; [discriminate|].
  destruct Hout as (l1 & E & Hb1 & Hh & Ho & Ha & Hc).
  injection E as -> ->.
  exists p, r, ci, k, result. cbv zeta. simpl.
  repeat split; auto.
Qed.

Lemma init_sched_inv self li rid batch w :
  sched_inv self li rid (init_state batch w).
Proof.
  unfold sched_inv, init_state. simpl.
  repeat split; auto. intros t Ht. lia.
Qed.

Lemma step_sched_inv self li rid s s' :
  step self li rid s s' ->
  sched_inv self li rid s -> sched_inv self li rid s'.
Proof.
  intros Hstep Hinv.
  assert (Hs : stopped s = false) by (destruct Hstep; assumption).
  apply step_inv in Hstep.
  destruct Hstep as (p & r & ci & k & result & Hstep). cbv zeta in Hstep.
  destruct Hstep as
    (Hp & Hr & Hci & Hk & Hx & Ht & Hc & Hst & Hb & Hh & Ho & Ha & Hl).
  unfold sched_inv in *. cbv zeta in *.
  destruct Hinv as (I1 & I2 & I3 & I4 & I5 & I6 & I7 & I8 & I9).
  rewrite Ht, Hc, Hh, Ho, Ha, Hl, Hst.
  rewrite exec_results_app. simpl exec_results.
  repeat split.
  - rewrite length_app. simpl. lia.
  - rewrite length_app. simpl. lia.
  - rewrite length_app. simpl. lia.
  - rewrite I4. now apply dict_update_turn.
  - rewrite I5, map_app. simpl map. apply dict_update_turn.
    now rewrite length_map.
  - now rewrite last_result_snoc.
  - rewrite turns_without_stop_app, I7, Hs, I1. simpl.
    rewrite Hr. now rewrite andb_true_r.
  - rewrite removelast_last, I7, Hs. reflexivity.
  - intros t Hlt. destruct (Nat.eq_dec t (turn_no s)) as [->|Hne].
    + exists p, r, (dict_set ci k (VList (conversation_history (locals s)))),
        result, k.
      repeat split; auto.
      * rewrite nth_error_app2 by lia. now rewrite I1, Nat.sub_diag.
      * rewrite nth_error_app2 by lia. now rewrite I2, Nat.sub_diag.
      * rewrite nth_error_app2 by lia. now rewrite I3, Nat.sub_diag.
      * rewrite dict_get_set_same. rewrite firstn_app, <- I3 at 1.
        rewrite firstn_all. rewrite I3, Nat.sub_diag. simpl.
        now rewrite app_nil_r.
    + destruct (I9 t ltac:(lia))
        as (p0 & r0 & input0 & result0 & k0 &
            J1 & J2 & J3 & J4 & J5 & J6 & J7 & J8).
      exists p0, r0, input0, result0, k0.
      repeat split; auto.
      * rewrite nth_error_app1 by lia. exact J1.
      * rewrite nth_error_app1 by lia. exact J2.
      * rewrite nth_error_app1 by lia. exact J5.
      * rewrite J7. rewrite firstn_app.
        replace (t - length (conversation_history (locals s))) with 0 by lia.
        simpl. now rewrite app_nil_r.
      * match goal with
        | Hstop : stop_matched r0 result0 = true |- _ =>
            destruct (J8 Hstop) as [_ Hstopped]; congruence
        end.
      * match goal with
        | Hstop : stop_matched r0 result0 = true |- _ =>
            destruct (J8 Hstop) as [_ Hstopped]; congruence
        end.
Qed.

Lemma steps_sched_inv self li rid s s' :
  steps self li rid s s' ->
  sched_inv self li rid s -> sched_inv self li rid s'.
Proof.
  intros H Hinv. induction H; [assumption|].
  eapply step_sched_inv; eauto.
Qed.

Lemma list_set_length (A : Type) (l : list A) : forall n a,
  length (list_set l n a) = length l.
Proof.
  induction l as [|x l IH]; intros [|n] a; simpl; auto.
Qed.

Lemma steps_batch_length self li rid s s' :
  steps self li rid s s' ->
  length (batch_inputs (locals s')) = length (batch_inputs (locals s)).
Proof.
  induction 1 as [|s1 s2 _ IH Hstep]; [reflexivity|].
  apply step_inv in Hstep.
  destruct Hstep as (p & r & ci & k & result & Hstep). cbv zeta in Hstep.
  destruct Hstep as (_ & _ & _ & _ & _ & _ & _ & _ & Hb & _).
  now rewrite Hb, list_set_length.
Qed.

(** *** Resolving the inputs of the roles *)

Lemma py_in_count x l : py_in x l = negb (py_count x l =? 0).
Proof.
  unfold py_in, py_count.
  induction l as [|e l IH]; simpl; [reflexivity|].
  destruct (py_eqb e x); simpl; auto.
Qed.

(** A role that passed the check has a key bound to the history. *)
Lemma history_key_found mapping :
  py_in (VStr CONVERSATION_HISTORY_EXPRESSION) (dict_values mapping) = true ->
  exists k, conversation_history_key_of mapping = Some k.
Proof.
  unfold conversation_history_key_of, py_in, dict_values.
  induction mapping as [|[k v] mapping IH]; simpl; [discriminate|].
  destruct (py_eqb v (VStr CONVERSATION_HISTORY_EXPRESSION)); simpl.
  - intros _. now exists k.
  - exact IH.
Qed.

(** How resolving the inputs of one role ends. *)
Lemma process_role_inputs_cases self inputs r acc w w' evs res :
  process_role_inputs self inputs r acc w = (w', evs, res) ->
  evs = [] /\
  match res with
  | inr batch =>
      history_bindings r = 1 /\ exists d, batch = acc ++ [d]
  | inl e =>
      (history_bindings r = 0 /\ w' = w /\
       e = MissingConversationHistoryExpression (role r) (name r)) \/
      (1 < history_bindings r /\ w' = w /\
       e = MultipleConversationHistoryInputsMapping (role r) (name r)) \/
      (history_bindings r = 1 /\
       (process_batch_inputs_line r (_max_lines_count self) inputs w
        = (w', inl e) \/
        exists w1 d,
          process_batch_inputs_line r (_max_lines_count self) inputs w
          = (w1, inr d) /\
          apply_default_value_for_input r d w1 = (w', inl e)))
  end.
Proof.
  unfold process_role_inputs, history_bindings. rewrite py_in_count.
  set (c := py_count _ _). rewrite negb_involutive.
  destruct (c =? 0) eqn:E0.
  { apply Nat.eqb_eq in E0. unfold raise.
    intro H. injection H as <- <- <-. auto. }
  apply Nat.eqb_neq in E0.
  destruct (1 <? c) eqn:E1.
  { apply Nat.ltb_lt in E1. unfold raise.
    intro H. injection H as <- <- <-. split; [reflexivity|].
    right. left. auto. }
  apply Nat.ltb_ge in E1. assert (Hc : c = 1) by lia.
  unfold bind, call, ret.
  destruct (process_batch_inputs_line r _ inputs w) as [w1 [e|d]] eqn:Ep.
  { intro H. injection H as <- <- <-. split; [reflexivity|].
    right. right. auto. }
  destruct (apply_default_value_for_input r d w1) as [w2 [e|d']] eqn:Ea.
  { intro H. injection H as <- <- <-. split; auto.
    right. right. split; auto. right. now exists w1, d. }
  intro H. injection H as <- <- <-. split; auto. split; auto. now exists d'.
Qed.

Lemma process_batch_loop self inputs roles : forall acc w w' evs res,
  for_each roles (process_role_inputs self inputs) acc w = (w', evs, res) ->
  evs = [] /\
  match res with
  | inr batch =>
      length batch = length acc + length roles /\
      Forall (fun r => history_bindings r = 1) roles
  | inl e =>
      exists before r after w1 w2 acc1,
        roles = before ++ r :: after /\
        Forall (fun r => history_bindings r = 1) before /\
        process_role_inputs self inputs r acc1 w1 = (w2, [], inl e)
  end.
Proof.
  induction roles as [|r roles IH]; intros acc w w' evs res H; simpl in H.
  - unfold ret in H. injection H as <- <- <-. simpl. auto.
  - apply bind_inv in H.
    destruct H as [(e & Hb & ->) | (w1 & t1 & acc1 & t2 & Hb & Hk & ->)].
    + pose proof (process_role_inputs_cases _ _ _ _ _ Hb) as [-> _].
      split; auto. exists [], r, roles, w, w', acc. simpl. auto.
    + pose proof (process_role_inputs_cases _ _ _ _ _ Hb) as (-> & Hc & d & ->).
      apply IH in Hk. destruct Hk as [-> Hk]. split; auto.
      destruct res as [e|batch].
      * destruct Hk as (before & r' & after & wa & wb & acc' & -> & Hall & Hr).
        exists (r :: before), r', after, wa, wb, acc'. simpl. auto.
      * destruct Hk as [Hlen Hall]. rewrite length_app in Hlen. simpl in *.
        split; [lia|]. constructor; auto.
Qed.

(** [_process_batch_inputs] calls no executor; when it returns, there is
    one resolved input per role and every role binds the history once. *)
Lemma process_batch_inputs_spec self inputs w w' evs res :
  _process_batch_inputs self inputs w = (w', evs, res) ->
  evs = [] /\
  match res with
  | inr batch =>
      length batch = length (_chat_group_roles self) /\
      Forall (fun r => history_bindings r = 1) (_chat_group_roles self)
  | inl e =>
      exists before r after w1 w2 acc1,
        _chat_group_roles self = before ++ r :: after /\
        Forall (fun r => history_bindings r = 1) before /\
        process_role_inputs self inputs r acc1 w1 = (w2, [], inl e)
  end.
Proof.
  unfold _process_batch_inputs. intro H.
  apply process_batch_loop in H. exact H.
Qed.

(** With a role that does not bind the history exactly once,
    [_process_batch_inputs] raises. *)
Lemma process_batch_inputs_bad self inputs w :
  forallb (fun r => history_bindings r =? 1) (_chat_group_roles self) = false ->
  exists w' e, _process_batch_inputs self inputs w = (w', [], inl e).
Proof.
  intro Hbad.
  destruct (_process_batch_inputs self inputs w) as [[w' evs] res] eqn:E.
  pose proof (process_batch_inputs_spec _ _ _ E) as [-> H].
  destruct res as [e|batch]; [now exists w', e|].
  destruct H as [_ Hall]. exfalso.
  assert (forallb (fun r => history_bindings r =? 1)
                  (_chat_group_roles self) = true); [|congruence].
  apply forallb_forall. intros r Hin.
  rewrite Forall_forall in Hall. apply Nat.eqb_eq. auto.
Qed.

(** *** Scheduling a line *)

(** How [_schedule_line_runs] ends: the inputs of a role cannot be
    resolved; [max_turn] is [None]; a turn fails; or the loop ends and the
    result is assembled from the local variables. *)
Lemma schedule_cases self li inputs rid w w' evs res :
  _schedule_line_runs self li inputs rid w = (w', evs, res) ->
  (exists e, _process_batch_inputs self inputs w = (w', [], inl e) /\
             evs = [] /\ res = inl e) \/
  (exists wb batch,
      _process_batch_inputs self inputs w = (wb, [], inr batch) /\
      ((_max_turn self = None /\ evs = [] /\ w' = wb /\ res = inl TypeError) \/
       exists max_turn s,
         _max_turn self = Some max_turn /\
         steps self li rid (init_state batch wb) s /\
         ((exists evs2 e,
              stopped s = false /\ turn_no s < Z.to_nat max_turn /\
              evs = calls s ++ evs2 /\
              turn_body self li rid (Z.of_nat (turn_no s)) (locals s) (world s)
              = (w', evs2, inl e) /\
              res = inl e) \/
          (world s = w' /\ evs = calls s /\
           (stopped s = true \/ turn_no s = Z.to_nat max_turn) /\
           res =
             match current_line_result (locals s) with
             | None => inl AttributeError
             | Some r =>
                 inr {| output :=
                          dict_update (outputs (locals s))
                            [(KStr CONVERSATION_HISTORY_OUTPUT_KEY,
                              VList (conversation_history (locals s)))];
                        aggregation_inputs := aggregation_inputs_ (locals s);
                        run_info := run_info r;
                        node_run_infos := node_run_infos r |}
             end)))).
Proof.
  unfold _schedule_line_runs. intro H. apply bind_inv in H.
  destruct H as [(e & Hb & ->) | (wb & tb & batch & t2 & Hb & Hk & ->)].
  - pose proof (process_batch_inputs_spec _ _ _ Hb) as [-> _].
    left. now exists e.
  - pose proof (process_batch_inputs_spec _ _ _ Hb) as [-> _].
    right. exists wb, batch. split; [exact Hb|]. simpl.
    destruct (_max_turn self) as [max_turn|] eqn:HM.
    2:{ unfold raise in Hk. injection Hk as <- <- <-. left. auto. }
    right. apply bind_inv in Hk.
    destruct Hk as [(e & Hl & ->) | (w1 & t1 & l & t3 & Hl & Hk & ->)].
    + apply (@for_break_steps self li rid max_turn HM (Z.to_nat max_turn)
               (init_state batch wb) _ _ _ eq_refl eq_refl) in Hl.
      destruct Hl as (s & evs1 & evs2 & Hst & Hs & Hlt & Hc & -> & Hbody).
      simpl in Hc. subst evs1.
      exists max_turn, s. repeat split; auto.
      left. exists evs2, e. auto.
    + apply (@for_break_steps self li rid max_turn HM (Z.to_nat max_turn)
               (init_state batch wb) _ _ _ eq_refl eq_refl) in Hl.
      destruct Hl as (s & Hst & <- & <- & Hc & Hfin).
      simpl in Hc. subst t1.
      exists max_turn, s. repeat split; auto.
      right.
      destruct (current_line_result (locals s)) as [r|].
      * unfold ret in Hk. injection Hk as <- <- <-.
        rewrite app_nil_r. auto.
      * unfold raise in Hk. injection Hk as <- <- <-.
        rewrite app_nil_r. auto.
Qed.

(** *** Construction *)

Lemma create_loop_spec storage kwargs roles : forall acc w w' evs proxies,
  for_each roles
    (fun chat_role executor_proxy_list =>
       executor_proxy <-
         call_ev (create_executor_proxy chat_role storage kwargs)
                 (EvCreate chat_role) ;;
       ret (executor_proxy_list ++ [executor_proxy]))
    acc w = (w', evs, inr proxies) ->
  exists ps, proxies = acc ++ ps /\ length ps = length roles /\
             evs = map (fun rp => EvCreate (fst rp) (inr (snd rp)))
                       (combine roles ps).
Proof.
  induction roles as [|r roles IH]; intros acc w w' evs proxies H; simpl in H.
  - unfold ret in H. injection H as <- <- <-.
    exists []. now rewrite app_nil_r.
  - apply bind_inv in H.
    destruct H as [(e & _ & He) | (w1 & t1 & acc1 & t2 & Hb & Hk & ->)];
      [discriminate|].
    unfold bind, call_ev, ret in Hb.
    destruct (create_executor_proxy r storage kwargs w) as [w2 [e|p]];
      [discriminate|].
    injection Hb as <- <- <-.
    apply IH in Hk. destruct Hk as (ps & -> & Hlen & ->).
    exists (p :: ps). rewrite <- app_assoc. simpl.
    repeat split; auto.
Qed.

(** An orchestrator that was constructed has at least two roles and one
    executor proxy per role, created in the order of the roles. *)
Lemma init_spec roles max_turn storage max_lines_count kwargs w w' evs self :
  __init__ roles max_turn storage max_lines_count kwargs w
  = (w', evs, inr self) ->
  2 <= length roles /\
  _chat_group_roles self = roles /\
  _max_turn self = max_turn /\
  length (_executor_proxies self) = length roles /\
  evs = map (fun rp => EvCreate (fst rp) (inr (snd rp)))
            (combine roles (_executor_proxies self)).
Proof.
  unfold __init__.
  destruct (length roles <? 2) eqn:E; [discriminate|].
  apply Nat.ltb_ge in E. intro H. apply bind_inv in H.
  destruct H as [(e & _ & He) | (w1 & t1 & ps & t2 & Hb & Hk & ->)];
    [discriminate|].
  unfold _create_executor_proxy in Hb. apply create_loop_spec in Hb.
  destruct Hb as (ps' & -> & Hlen & ->). simpl in *.
  unfold ret in Hk. injection Hk as <- <- <-. simpl.
  rewrite app_nil_r. repeat split; auto.
Qed.

Lemma nth_error_map_combine (A B C : Type) (f : A * B -> C) xs : forall ys i x y,
  nth_error xs i = Some x -> nth_error ys i = Some y ->
  nth_error (map f (combine xs ys)) i = Some (f (x, y)).
Proof.
  induction xs as [|a xs IH]; intros [|b ys] [|i] x y Hx Hy; simpl in *;
    try discriminate.
  - congruence.
  - eauto.
Qed.

(** *** Validation *)

(** C4. Constructing the orchestrator with fewer than two roles raises
    [InvalidChatRoleCount], and does so before any executor proxy is
    created: no call was made and the world is unchanged. *)
Theorem C4_invalid_role_count :
  forall roles max_turn storage max_lines_count kwargs w,
    length roles < 2 ->
    __init__ roles max_turn storage max_lines_count kwargs w
    = (w, [], inl (InvalidChatRoleCount (length roles))).
Proof.
  intros roles max_turn storage mlc kwargs w H. unfold __init__.
  apply Nat.ltb_lt in H. now rewrite H.
Qed.

(** C5. If some role does not bind the conversation history expression
    exactly once, scheduling a line raises without any call to an executor.
    The roles are checked in order: with [r] the role at which the call
    ends, every role before [r] binds the expression once, and the error is
    [MissingConversationHistoryExpression] when [r] has no binding,
    [MultipleConversationHistoryInputsMapping] when [r] has several, or
    what resolving the inputs of [r] raised when [r] has one. *)
Theorem C5_invalid_mapping_fails_before_any_turn :
  forall self line_index inputs run_id w,
    forallb (fun r => history_bindings r =? 1) (_chat_group_roles self)
    = false ->
    exists w' e,
      _schedule_line_runs self line_index inputs run_id w = (w', [], inl e) /\
      exists before r after,
        _chat_group_roles self = before ++ r :: after /\
        Forall (fun r => history_bindings r = 1) before /\
        ((history_bindings r = 0 /\
          e = MissingConversationHistoryExpression (role r) (name r)) \/
         (1 < history_bindings r /\
          e = MultipleConversationHistoryInputsMapping (role r) (name r)) \/
         (history_bindings r = 1 /\
          exists w1 w2,
            process_batch_inputs_line r (_max_lines_count self) inputs w1
            = (w2, inl e) \/
            exists d, apply_default_value_for_input r d w1 = (w2, inl e))).
Proof.
  intros self li inputs rid w Hbad.
  destruct (process_batch_inputs_bad self inputs w Hbad) as (w' & e & Hb).
  exists w', e. split.
  - unfold _schedule_line_runs, bind. now rewrite Hb.
  - pose proof (process_batch_inputs_spec _ _ _ Hb) as [_ H].
    destruct H as (before & r & after & w1 & w2 & acc & Hroles & Hall & Hr).
    exists before, r, after. split; [exact Hroles|]. split; [exact Hall|].
    apply process_role_inputs_cases in Hr. destruct Hr as [_ Hr].
    destruct Hr as [(H0 & _ & He) | [(H1 & _ & He) | (H1 & Hres)]]; auto.
    right. right. split; [exact H1|].
    destruct Hres as [Hp | (w3 & d & Hp & Ha)].
    + exists w1, w2. now left.
    + exists w3, w2. right. now exists d.
Qed.

(** C8. A turn limit of 0 is not rejected: the constructor accepts it, and
    scheduling a line then resolves the inputs, runs no turn, reaches the
    assembly of the result and fails there on
    [current_line_result.node_run_infos], [current_line_result] being
    [None]. *)
Theorem C8_max_turn_zero_reaches_assembly :
  forall roles storage max_lines_count kwargs w0 w1 evs0 self
         line_index inputs run_id w wb batch,
    __init__ roles (Some 0%Z) storage max_lines_count kwargs w0
    = (w1, evs0, inr self) ->
    _process_batch_inputs self inputs w = (wb, [], inr batch) ->
    _schedule_line_runs self line_index inputs run_id w
    = (wb, [], inl AttributeError).
Proof.
  intros roles storage mlc kwargs w0 w1 evs0 self li inputs rid w wb batch
         Hinit Hb.
  apply init_spec in Hinit. destruct Hinit as (_ & _ & HM & _).
  unfold _schedule_line_runs, bind. rewrite Hb, HM. reflexivity.
Qed.

(** *** Turns of a constructed orchestrator *)

Lemma executed_turns_bounds evs :
  length (exec_results evs) <= executed_turns evs <= length evs.
Proof.
  unfold executed_turns.
  induction evs as [|ev evs IH]; simpl; [lia|].
  destruct ev as [| ? ? ? ? [?|?] |]; simpl; lia.
Qed.

Lemma sched_inv_executed_turns self li rid s :
  sched_inv self li rid s -> executed_turns (calls s) = turn_no s.
Proof.
  intros (I1 & I2 & _).
  pose proof (executed_turns_bounds (calls s)). lia.
Qed.

Lemma sched_inv_last_result self li rid s :
  sched_inv self li rid s -> 0 < turn_no s ->
  exists last,
    current_line_result (locals s) = Some last /\
    last_result (exec_results (calls s)) = Some last.
Proof.
  intros (_ & I2 & _ & _ & _ & I6 & _) Hk.
  rewrite I6. unfold last_result.
  destruct (nth_error (exec_results (calls s))
                      (pred (length (exec_results (calls s))))) eqn:E.
  - eauto.
  - apply nth_error_None in E. lia.
Qed.

(** With one proxy and one resolved input per role, and the history bound
    in every role, a turn fails only when the executor raises. *)
Lemma turn_body_fails_in_executor self li rid t l w w' evs e :
  length (_chat_group_roles self) <> 0 ->
  length (_executor_proxies self) = length (_chat_group_roles self) ->
  length (batch_inputs l) = length (_chat_group_roles self) ->
  Forall (fun r => history_bindings r = 1) (_chat_group_roles self) ->
  turn_body self li rid (Z.of_nat t) l w = (w', evs, inl e) ->
  exists p input, evs = [EvExec p input li rid (inl e)].
Proof.
  intros Hn Hp Hb Hall H. apply turn_body_cases in H. cbv zeta in H.
  pose proof (Nat.mod_upper_bound t _ Hn) as Hlt.
  destruct H as [(_ & _ & _ & H) | H].
  - exfalso. unfold active_proxy, active_role in H.
    destruct H as [H | [H | [H | [H | (r & Hr & Hk)]]]].
    + contradiction.
    + apply nth_error_None in H. lia.
    + apply nth_error_None in H. lia.
    + apply nth_error_None in H. lia.
    + apply nth_error_In in Hr. rewrite Forall_forall in Hall.
      specialize (Hall r Hr). unfold history_bindings in Hall.
      destruct (@history_key_found (inputs_mapping r)) as (k & Hk').
      * rewrite py_in_count, Hall. reflexivity.
      * congruence.
  - destruct H as (p & r & ci & k & out & _ & _ & _ & _ & _ & _ & -> & Hout).
    destruct out as [e'|result].
    + injection Hout as ->. eauto.
    + destruct Hout as (l' & Hres & _). discriminate.
Qed.

(** C1. For an orchestrator constructed with [N >= 2] roles and
    [max_turn = M], scheduling a line whose inputs resolve and in which
    every executor call returns an output that does not match the stop
    signal of the active role executes exactly [M] turns; turn [t] runs
    the executor proxy created for the role at index [t mod N] of the
    roles as they were given to the constructor.  With [M >= 1] the line
    result is returned. *)
Theorem C1_round_robin :
  forall roles max_turn storage max_lines_count kwargs w0 w1 evs0 self
         line_index inputs run_id w wb batch w' evs res,
    __init__ roles (Some max_turn) storage max_lines_count kwargs w0
    = (w1, evs0, inr self) ->
    (0 <= max_turn)%Z ->
    _process_batch_inputs self inputs w = (wb, [], inr batch) ->
    _schedule_line_runs self line_index inputs run_id w = (w', evs, res) ->
    turns_without_stop self 0 evs = true ->
    2 <= length roles /\
    executed_turns evs = Z.to_nat max_turn /\
    length evs = Z.to_nat max_turn /\
    (forall t, t < Z.to_nat max_turn ->
       exists p r input result,
         nth_error evs t =
           Some (EvExec p input line_index run_id (inr result)) /\
         nth_error roles (t mod length roles) = Some r /\
         nth_error (_executor_proxies self) (t mod length roles) = Some p /\
         nth_error evs0 (t mod length roles) = Some (EvCreate r (inr p))) /\
    ((1 <= max_turn)%Z -> exists line_result, res = inr line_result).
Proof.
  intros roles max_turn storage mlc kwargs w0 w1 evs0 self li inputs rid
         w wb batch w' evs res Hinit HM Hb Hrun Hns.
  apply init_spec in Hinit.
  destruct Hinit as (HN & Hroles & Hmax & Hproxies & Hevs0).
  pose proof (process_batch_inputs_spec _ _ _ Hb) as (_ & Hlen & Hall).
  apply schedule_cases in Hrun.
  destruct Hrun as [(e & Hb' & _) | (wb' & batch' & Hb' & Hrun)];
    [congruence|].
  rewrite Hb in Hb'. injection Hb' as <- <-.
  destruct Hrun as [(Hnone & _) | (M & s & HM' & Hst & Hrun)]; [congruence|].
  assert (M = max_turn) by congruence. subst M.
  pose proof (steps_sched_inv Hst (init_sched_inv self li rid batch wb)) as Hinv.
  pose proof (steps_batch_length Hst) as Hbl. simpl in Hbl.
  assert (Hfin : evs = calls s /\ turn_no s = Z.to_nat max_turn /\
                 ((1 <= max_turn)%Z -> exists lr, res = inr lr)).
  { destruct Hrun as [(evs2 & e & Hs & Hlt & -> & Hbody & ->) | Hrun].
    - exfalso.
      apply turn_body_fails_in_executor in Hbody;
        try congruence; try assumption; try (rewrite Hroles; lia).
      destruct Hbody as (p & input & ->).
      rewrite turns_without_stop_app in Hns. simpl in Hns.
      rewrite andb_false_r in Hns. discriminate.
    - destruct Hrun as (_ & -> & Hfin & ->).
      destruct Hinv as (_ & _ & _ & _ & _ & _ & I7 & _).
      destruct Hfin as [Hstop | Hk].
      + rewrite Hns, Hstop in I7. discriminate.
      + repeat split; auto. intro H1.
        destruct (@sched_inv_last_result self li rid s) as (last & -> & _).
        * eapply steps_sched_inv; [exact Hst|apply init_sched_inv].
        * lia.
        * eauto. }
  destruct Hfin as (-> & Hk & Hres).
  split; [lia|]. split.
  { rewrite <- Hk. eapply sched_inv_executed_turns; eauto. }
  split.
  { destruct Hinv as (I1 & _). lia. }
  split; [|exact Hres].
  intros t Ht.
  destruct Hinv as (_ & _ & _ & _ & _ & _ & _ & _ & I9).
  destruct (I9 t ltac:(lia))
    as (p & r & input & result & k & J1 & _ & J3 & J4 & _).
  unfold active_proxy, active_role in *. rewrite Hroles in *.
  exists p, r, input, result. repeat split; auto.
  rewrite Hevs0.
  apply (nth_error_map_combine
           (fun rp : ChatRole * Proxy => EvCreate (fst rp) (inr (snd rp)))
           _ _ _ J4 J3).
Qed.

Lemma turn_body_inl_events self li rid t l w w' evs e :
  turn_body self li rid (Z.of_nat t) l w = (w', evs, inl e) ->
  evs = [] \/ exists p input, evs = [EvExec p input li rid (inl e)].
Proof.
  intro H. apply turn_body_cases in H. cbv zeta in H.
  destruct H as [(-> & _) | H]; [now left|].
  destruct H as (p & r & ci & k & out & _ & _ & _ & _ & _ & _ & -> & Hout).
  destruct out as [e'|result].
  - injection Hout as ->. right. eauto.
  - destruct Hout as (l' & Hres & _). discriminate.
Qed.

(** C2. If turn [t] of a scheduling run returns an output one of whose
    values equals the stop signal of the active role, the run makes
    exactly [t + 1] executor calls, the call of turn [t] being the last,
    and returns the line result. *)
Theorem C2_stop_signal_ends_line :
  forall self line_index inputs run_id w w' evs res
         t p input line_index' run_id' result r,
    _schedule_line_runs self line_index inputs run_id w = (w', evs, res) ->
    nth_error evs t =
      Some (EvExec p input line_index' run_id' (inr result)) ->
    active_role self t = Some r ->
    stop_matched r result = true ->
    length evs = S t /\
    executed_turns evs = S t /\
    exists line_result, res = inr line_result.
Proof.
  intros self li inputs rid w w' evs res t p input li' rid' result r
         Hrun Hev Hr Hstop.
  apply schedule_cases in Hrun.
  destruct Hrun as [(e & _ & -> & _) | (wb & batch & _ & Hrun)].
  { now destruct t. }
  destruct Hrun as [(_ & -> & _) | (M & s & HM & Hst & Hrun)].
  { now destruct t. }
  pose proof (steps_sched_inv Hst (init_sched_inv self li rid batch wb)) as Hinv.
  pose proof (sched_inv_executed_turns Hinv) as Hex.
  pose proof Hinv as (I1 & _ & _ & _ & _ & _ & _ & _ & I9).
  assert (Hcase : t < turn_no s -> nth_error (calls s) t = nth_error evs t ->
                  S t = turn_no s /\ stopped s = true).
  { intros Hlt Heq.
    destruct (I9 t Hlt)
      as (p0 & r0 & input0 & result0 & k0 & J1 & _ & _ & J4 & _ & _ & _ & J8).
    rewrite Heq, Hev in J1. injection J1 as <- <- <- <- <-.
    rewrite Hr in J4. injection J4 as <-. auto. }
  destruct Hrun as [(evs2 & e & Hs & Hlt & -> & Hbody & ->) | Hrun].
  - exfalso. destruct (Nat.lt_ge_cases t (turn_no s)) as [Hlt' | Hge].
    + destruct Hcase as [_ Hstopped]; auto.
      * now rewrite nth_error_app1 by lia.
      * congruence.
    + rewrite nth_error_app2 in Hev by lia.
      apply turn_body_inl_events in Hbody.
      destruct Hbody as [-> | (p1 & input1 & ->)].
      * now destruct (t - length (calls s)).
      * destruct (t - length (calls s)) as [|[|i]]; discriminate.
  - destruct Hrun as (_ & -> & _ & ->).
    assert (Hlt : t < turn_no s).
    { rewrite <- I1. apply nth_error_Some. congruence. }
    destruct (Hcase Hlt eq_refl) as [Hk _].
    repeat split; try lia.
    destruct (sched_inv_last_result Hinv) as (last & -> & _); [lia|].
    eauto.
Qed.

(** *** The history *)

Lemma steps_history_prefix self li rid s s' :
  steps self li rid s s' ->
  firstn (length (conversation_history (locals s)))
         (conversation_history (locals s'))
  = conversation_history (locals s).
Proof.
  induction 1 as [|s1 s2 _ IH Hstep].
  - apply firstn_all.
  - apply step_inv in Hstep.
    destruct Hstep as (p & r & ci & k & result & Hstep). cbv zeta in Hstep.
    destruct Hstep as (_ & _ & _ & _ & _ & _ & _ & _ & _ & Hh & _).
    rewrite Hh, firstn_app.
    assert (Hle : length (conversation_history (locals s))
                  <= length (conversation_history (locals s1))).
    { rewrite <- IH at 1. rewrite length_firstn. lia. }
    replace (length (conversation_history (locals s))
             - length (conversation_history (locals s1))) with 0 by lia.
    rewrite IH. simpl. apply app_nil_r.
Qed.

(** The fields of a history record. *)
Lemma turn_record_fields kind (out : pydict) :
  let record := dict_update [(KStr "role", VStr kind)] out in
  (dict_wfb out = true ->
   forall k v, dict_get out k = Some v -> dict_get record k = Some v) /\
  (dict_get out (KStr "role") = None ->
   dict_get record (KStr "role") = Some (VStr kind)).
Proof.
  cbv zeta. split.
  - intros Hwf k v H. now apply dict_update_get.
  - intros H. rewrite dict_update_get_notin by exact H. reflexivity.
Qed.

(** C3. After [k] completed turns of a scheduling run the conversation
    history has exactly [k] records, in turn order; the record of turn [t]
    is [{"role": kind}], [kind] being the tag of the role active at [t],
    updated with the output the executor returned at turn [t], so that it
    has every field of the output (and the tag under ["role"] when the
    output has no such field); and the records of the turns completed so
    far are the first [k] records of the history at any later point of the
    run. *)
Theorem C3_history_after_k_turns :
  forall self line_index run_id batch w0 s,
    steps self line_index run_id (init_state batch w0) s ->
    let history := conversation_history (locals s) in
    length history = turn_no s /\
    (forall t, t < turn_no s ->
       exists p r input result record,
         nth_error (calls s) t =
           Some (EvExec p input line_index run_id (inr result)) /\
         active_role self t = Some r /\
         nth_error history t = Some (VDict record) /\
         record = dict_update [(KStr "role", VStr (role r))] (output result) /\
         (dict_wfb (output result) = true ->
          forall k v, dict_get (output result) k = Some v ->
                      dict_get record k = Some v) /\
         (dict_get (output result) (KStr "role") = None ->
          dict_get record (KStr "role") = Some (VStr (role r)))) /\
    (forall s', steps self line_index run_id s s' ->
       firstn (turn_no s) (conversation_history (locals s')) = history).
Proof.
  intros self li rid batch w0 s Hst history. subst history.
  pose proof (steps_sched_inv Hst (init_sched_inv self li rid batch w0)) as Hinv.
  destruct Hinv as (_ & _ & I3 & _ & _ & _ & _ & _ & I9).
  split; [exact I3|]. split.
  - intros t Ht.
    destruct (I9 t Ht)
      as (p & r & input & result & k & J1 & _ & _ & J4 & J5 & _).
    exists p, r, input, result, (dict_update [(KStr "role", VStr (role r))]
                                              (output result)).
    destruct (turn_record_fields (role r) (output result)) as [F1 F2].
    repeat split; auto.
  - intros s' Hst'. rewrite <- I3. now apply steps_history_prefix in Hst'.
Qed.

(** *** The line result *)

Lemma dict_get_app (V : Type) (d1 d2 : list (key * V)) k :
  dict_get (d1 ++ d2) k =
  match dict_get d1 k with
  | Some v => Some v
  | None => dict_get d2 k
  end.
Proof.
  induction d1 as [|[k1 v1] d1 IH]; simpl; [reflexivity|].
  now destruct (key_eqb k1 k).
Qed.

Lemma dict_keys_combine (V : Type) (ks : list key) : forall vs : list V,
  length ks = length vs -> dict_keys (combine ks vs) = ks.
Proof.
  unfold dict_keys.
  induction ks as [|k ks IH]; intros [|v vs] H; simpl in *;
    try discriminate; [reflexivity|].
  f_equal. apply IH. now injection H.
Qed.

(** Publishing the history under the reserved key, a string, adds a
    binding after those of the turns. *)
Lemma dict_update_reserved k (vs : list pyval) name v :
  dict_update (combine (turn_keys k) vs) [(KStr name, v)]
  = combine (turn_keys k) vs ++ [(KStr name, v)].
Proof.
  unfold dict_update. cbn [fold_left fst snd].
  apply dict_set_fresh. apply dict_get_turn_keys_other.
  intros t _. discriminate.
Qed.

(** A line that returns has completed at least one turn; its result is
    assembled from the local variables at the end of the loop. *)
Lemma schedule_returns self li inputs rid w w' evs line_result :
  _schedule_line_runs self li inputs rid w = (w', evs, inr line_result) ->
  exists wb batch s last,
    steps self li rid (init_state batch wb) s /\
    evs = calls s /\
    0 < turn_no s /\
    current_line_result (locals s) = Some last /\
    line_result =
      {| output :=
           dict_update (outputs (locals s))
             [(KStr CONVERSATION_HISTORY_OUTPUT_KEY,
               VList (conversation_history (locals s)))];
         aggregation_inputs := aggregation_inputs_ (locals s);
         run_info := run_info last;
         node_run_infos := node_run_infos last |}.
Proof.
  intro Hrun. apply schedule_cases in Hrun.
  destruct Hrun as [(e & _ & _ & He) | (wb & batch & _ & Hrun)];
    [discriminate|].
  destruct Hrun as [(_ & _ & _ & He) | (M & s & HM & Hst & Hrun)];
    [discriminate|].
  destruct Hrun as [(evs2 & e & _ & _ & _ & _ & He) | Hrun]; [discriminate|].
  destruct Hrun as (_ & -> & _ & Hres).
  pose proof (steps_sched_inv Hst (init_sched_inv self li rid batch wb)) as Hinv.
  destruct (current_line_result (locals s)) as [last|] eqn:Hlast;
    [|discriminate].
  exists wb, batch, s, last. injection Hres as ->.
  repeat split; auto.
  destruct Hinv as (_ & I2 & _ & _ & _ & I6 & _).
  destruct (turn_no s); [|lia].
  destruct (exec_results (calls s)); [|discriminate].
  rewrite Hlast in I6. discriminate.
Qed.

(** C6. In the result of a completed line, the value under the reserved
    key is the list of the records under the turn indices
    [0, 1, ..., t_last], in that order: entry [t] of the list is
    [outputs[t]] for every [t], the list has one entry per executed turn,
    and the output has no other key. *)
Theorem C6_history_key_round_trip :
  forall self line_index inputs run_id w w' evs line_result,
    _schedule_line_runs self line_index inputs run_id w
    = (w', evs, inr line_result) ->
    exists history,
      dict_get (output line_result) (KStr CONVERSATION_HISTORY_OUTPUT_KEY)
      = Some (VList history) /\
      length history = executed_turns evs /\
      (forall t,
         dict_get (output line_result) (KInt (Z.of_nat t))
         = nth_error history t) /\
      dict_keys (output line_result)
      = turn_keys (length history) ++ [KStr CONVERSATION_HISTORY_OUTPUT_KEY].
Proof.
  intros self li inputs rid w w' evs lr Hrun.
  apply schedule_returns in Hrun.
  destruct Hrun as (wb & batch & s & last & Hst & -> & Hk & Hlast & ->).
  pose proof (steps_sched_inv Hst (init_sched_inv self li rid batch wb)) as Hinv.
  pose proof (sched_inv_executed_turns Hinv) as Hex.
  destruct Hinv as (_ & _ & I3 & I4 & _).
  exists (conversation_history (locals s)). cbn [output].
  rewrite I4, dict_update_reserved, Hex, I3.
  repeat split.
  - rewrite dict_get_app, dict_get_turn_keys_other by (intros; discriminate).
    simpl. now rewrite String.eqb_refl.
  - intro t. rewrite dict_get_app, dict_get_turn_keys.
    destruct (t <? turn_no s) eqn:E.
    + apply Nat.ltb_lt in E.
      destruct (nth_error (conversation_history (locals s)) t) eqn:En;
        [reflexivity|].
      apply nth_error_None in En. lia.
    + apply Nat.ltb_ge in E. simpl. symmetry. apply nth_error_None. lia.
  - unfold dict_keys at 1. rewrite map_app. simpl. f_equal.
    apply dict_keys_combine. now rewrite turn_keys_length.
Qed.

(** C7. The result of a completed line has: as output, the records of the
    turns keyed by turn index, followed by the reserved key bound to the
    final history; as aggregation inputs, the aggregation inputs of the
    turns keyed by turn index; as run info and node run infos, those of
    the result of the last executed turn. *)
Theorem C7_line_result_assembly :
  forall self line_index inputs run_id w w' evs line_result,
    _schedule_line_runs self line_index inputs run_id w
    = (w', evs, inr line_result) ->
    let results := exec_results evs in
    exists history last,
      length results = executed_turns evs /\
      length history = length results /\
      (forall t result,
         nth_error results t = Some result ->
         exists r, active_role self t = Some r /\
                   nth_error history t = Some (turn_record r result)) /\
      output line_result
      = combine (turn_keys (length results)) history
        ++ [(KStr CONVERSATION_HISTORY_OUTPUT_KEY, VList history)] /\
      aggregation_inputs line_result
      = combine (turn_keys (length results))
                (map (fun r => VDict (aggregation_inputs r)) results) /\
      last_result results = Some last /\
      run_info line_result = run_info last /\
      node_run_infos line_result = node_run_infos last.
Proof.
  intros self li inputs rid w w' evs lr Hrun results. subst results.
  apply schedule_returns in Hrun.
  destruct Hrun as (wb & batch & s & last & Hst & -> & Hk & Hlast & ->).
  pose proof (steps_sched_inv Hst (init_sched_inv self li rid batch wb)) as Hinv.
  pose proof (sched_inv_executed_turns Hinv) as Hex.
  destruct Hinv as (_ & I2 & I3 & I4 & I5 & I6 & _ & _ & I9).
  exists (conversation_history (locals s)), last.
  cbn [output aggregation_inputs run_info node_run_infos].
  rewrite I2, Hex, I3, I4, I5, dict_update_reserved.
  repeat split; auto.
  - intros t result Ht.
    assert (Hlt : t < turn_no s).
    { rewrite <- I2. apply nth_error_Some. congruence. }
    destruct (I9 t Hlt)
      as (p & r & input & result0 & k & _ & J2 & _ & J4 & J5 & _).
    exists r. split; [exact J4|]. congruence.
  - congruence.
Qed.

(** *** Teardown *)

Lemma destroy_loop proxies : forall u w w' evs res,
  for_each proxies
    (fun executor_proxy (_ : unit) =>
       call_ev (proxy_destroy executor_proxy) (EvDestroy executor_proxy))
    u w = (w', evs, res) ->
  match res with
  | inr _ => evs = map (fun p => EvDestroy p (inr tt)) proxies
  | inl e =>
      exists done p rest,
        proxies = done ++ p :: rest /\
        evs = map (fun p => EvDestroy p (inr tt)) done ++ [EvDestroy p (inl e)]
  end.
Proof.
  induction proxies as [|p proxies IH]; intros u w w' evs res H; simpl in H.
  - unfold ret in H. injection H as <- <- <-. reflexivity.
  - apply bind_inv in H.
    destruct H as [(e & Hb & ->) | (w1 & t1 & u1 & t2 & Hb & Hk & ->)].
    + unfold call_ev in Hb.
      destruct (proxy_destroy p w) as [w1 [e'|u1]]; [|discriminate].
      injection Hb as <- <- <-. now exists [], p, proxies.
    + unfold call_ev in Hb.
      destruct (proxy_destroy p w) as [w2 [e'|[]]]; [discriminate|].
      injection Hb as <- <- <-.
      apply IH in Hk. destruct res as [e|u2].
      * destruct Hk as (done & p' & rest & -> & ->).
        now exists (p :: done), p', rest.
      * now rewrite Hk.
Qed.

(** C9, as the code has it.  [destroy] tears the executor proxies down in
    the order of the registry, each at most once.  When no teardown raises,
    every proxy is destroyed exactly once.  When the teardown of a proxy
    raises, that exception ends [destroy] and is raised to the caller: the
    proxies before it were destroyed, those after it are not. *)
Theorem C9_destroy_in_order_until_failure :
  forall self w,
    match destroy self w with
    | (_, evs, inr _) =>
        evs = map (fun p => EvDestroy p (inr tt)) (_executor_proxies self) /\
        destroyed evs = _executor_proxies self
    | (_, evs, inl e) =>
        exists done p rest,
          _executor_proxies self = done ++ p :: rest /\
          evs = map (fun p => EvDestroy p (inr tt)) done
                ++ [EvDestroy p (inl e)] /\
          destroyed evs = done ++ [p]
    end.
Proof.
  intros self w. unfold destroy.
  destruct (for_each _ _ tt w) as [[w' evs] res] eqn:E.
  apply destroy_loop in E.
  assert (Hd : forall ps, destroyed (map (fun p => EvDestroy p (inr tt)) ps)
                          = ps).
  { induction ps as [|p ps IH]; simpl; congruence. }
  assert (Hda : forall ps evs2,
             destroyed (map (fun p => EvDestroy p (inr tt)) ps ++ evs2)
             = ps ++ destroyed evs2).
  { induction ps as [|p ps IH]; intros evs2; simpl; [reflexivity|].
    now rewrite IH. }
  destruct res as [e|u].
  - destruct E as (done & p & rest & Hp & ->).
    exists done, p, rest. split; [exact Hp|]. split; [reflexivity|].
    rewrite Hda. reflexivity.
  - subst evs. split; auto.
Qed.

(** *** A field named "role" in the output *)

(** C10. If the output of a turn has a field named ["role"], its value
    replaces the kind tag in the history record of the turn, which is also
    the record stored under the turn index in the outputs: the record does
    not carry the tag of the acting role (unless the executor's value is
    that very tag). *)
Theorem C10_role_field_overwrites_kind :
  forall index chat_role result history outs aggs v,
    dict_wfb (output result) = true ->
    dict_get (output result) (KStr "role") = Some v ->
    match _process_flow_outputs index chat_role result history outs aggs with
    | (history', outs', _) =>
        exists record,
          history' = history ++ [VDict record] /\
          dict_get outs' (KInt index) = Some (VDict record) /\
          dict_get record (KStr "role") = Some v /\
          (v <> VStr (role chat_role) ->
           dict_get record (KStr "role") <> Some (VStr (role chat_role)))
    end.
Proof.
  intros index chat_role result history outs aggs v Hwf Hv.
  unfold _process_flow_outputs.
  exists (dict_update [(KStr "role", VStr (role chat_role))] (output result)).
  assert (Hrec : dict_get
                   (dict_update [(KStr "role", VStr (role chat_role))]
                                (output result)) (KStr "role") = Some v).
  { now apply dict_update_get. }
  repeat split.
  - unfold dict_update at 1. cbn [fold_left fst snd].
    apply dict_get_set_same.
  - exact Hrec.
  - intros Hne. rewrite Hrec. congruence.
Qed.


(** ** Further properties *)

(** *** Construction and teardown *)

(** How the loop of [_create_executor_proxy] ends. *)
Lemma create_loop_cases storage kwargs roles : forall acc w w' evs res,
  for_each roles
    (fun chat_role executor_proxy_list =>
       executor_proxy <-
         call_ev (create_executor_proxy chat_role storage kwargs)
                 (EvCreate chat_role) ;;
       ret (executor_proxy_list ++ [executor_proxy]))
    acc w = (w', evs, res) ->
  match res with
  | inr proxies =>
      exists ps, proxies = acc ++ ps /\ length ps = length roles /\
                 evs = map (fun rp => EvCreate (fst rp) (inr (snd rp)))
                           (combine roles ps)
  | inl e =>
      exists before r after ps w1,
        roles = before ++ r :: after /\
        length ps = length before /\
        evs = map (fun rp => EvCreate (fst rp) (inr (snd rp)))
                  (combine before ps)
              ++ [EvCreate r (inl e)] /\
        create_executor_proxy r storage kwargs w1 = (w', inl e)
  end.
Proof.
  induction roles as [|r roles IH]; intros acc w w' evs res H; simpl in H.
  - unfold ret in H. injection H as <- <- <-.
    exists []. now rewrite app_nil_r.
  - apply bind_inv in H.
    destruct H as [(e & Hb & ->) | (w1 & t1 & acc1 & t2 & Hb & Hk & ->)].
    + unfold bind, call_ev, ret in Hb.
      destruct (create_executor_proxy r storage kwargs w) as [w2 [e'|p]] eqn:Ec;
        [|discriminate].
      injection Hb as <- <- <-.
      exists [], r, roles, [], w. simpl. auto.
    + unfold bind, call_ev, ret in Hb.
      destruct (create_executor_proxy r storage kwargs w) as [w2 [e'|p]] eqn:Ec;
        [discriminate|].
      injection Hb as <- <- <-.
      apply IH in Hk. destruct res as [e|proxies].
      * destruct Hk as (before & r' & after & ps & w3 & -> & Hlen & -> & Hc).
        exists (r :: before), r', after, (p :: ps), w3. simpl.
        repeat split; auto.
      * destruct Hk as (ps & -> & Hlen & ->).
        exists (p :: ps). rewrite <- app_assoc. simpl.
        repeat split; auto.
Qed.

Lemma destroyed_creates roles : forall (ps : list Proxy) evs,
  destroyed (map (fun rp : ChatRole * Proxy => EvCreate (fst rp) (inr (snd rp)))
                 (combine roles ps) ++ evs)
  = destroyed evs.
Proof.
  induction roles as [|r roles IH]; intros [|p ps] evs; simpl; auto.
Qed.

Lemma created_creates roles : forall ps : list Proxy,
  length ps = length roles ->
  created (map (fun rp : ChatRole * Proxy => EvCreate (fst rp) (inr (snd rp)))
               (combine roles ps))
  = ps.
Proof.
  induction roles as [|r roles IH]; intros [|p ps] H; simpl in *;
    try discriminate; [reflexivity|].
  f_equal. apply IH. now injection H.
Qed.

(** X1. The constructor checks the number of roles and nothing else: with
    at least two roles, and a factory that creates a proxy for each of
    them, it returns an orchestrator that holds the roles, the turn limit,
    the storage and the line limit it was given, and one executor proxy
    per role, created by one factory call per role in the order of the
    roles. *)
Theorem X1_init_creates_one_proxy_per_role :
  forall roles max_turn storage max_lines_count kwargs w,
    2 <= length roles ->
    (forall r w0, In r roles ->
       exists w1 p, create_executor_proxy r storage kwargs w0 = (w1, inr p)) ->
    exists w' self,
      __init__ roles max_turn storage max_lines_count kwargs w
      = (w',
         map (fun rp => EvCreate (fst rp) (inr (snd rp)))
             (combine roles (_executor_proxies self)),
         inr self) /\
      _chat_group_roles self = roles /\
      _max_turn self = max_turn /\
      _storage self = storage /\
      _max_lines_count self = max_lines_count /\
      length (_executor_proxies self) = length roles.
Proof.
  intros roles max_turn storage mlc kwargs w Hn Hcreate.
  unfold __init__.
  destruct (length roles <? 2) eqn:E; [apply Nat.ltb_lt in E; lia|].
  unfold bind, _create_executor_proxy.
  destruct (for_each roles _ [] w) as [[w1 evs] res] eqn:Hloop.
  apply create_loop_cases in Hloop. destruct res as [e|proxies].
  - exfalso.
    destruct Hloop as (before & r & after & ps & w2 & -> & _ & _ & Hc).
    destruct (Hcreate r w2) as (w3 & p & Hp).
    + apply in_or_app. right. now left.
    + congruence.
  - destruct Hloop as (ps & -> & Hlen & ->). simpl.
    exists w1, {| _storage := storage;
                  _max_turn := max_turn;
                  _chat_group_roles := roles;
                  _max_lines_count := mlc;
                  _executor_proxies := ps |}.
    split; [unfold ret; rewrite app_nil_r; reflexivity|].
    simpl. auto.
Qed.

(** X2. When the constructor raises with at least two roles, the exception
    is the one the factory raised for some role: a proxy was created for
    each role before it, none for the roles after it, and the proxies that
    were created are not destroyed. *)
Theorem X2_init_failure_leaves_created_proxies :
  forall roles max_turn storage max_lines_count kwargs w w' evs e,
    2 <= length roles ->
    __init__ roles max_turn storage max_lines_count kwargs w
    = (w', evs, inl e) ->
    exists before r after ps w1,
      roles = before ++ r :: after /\
      create_executor_proxy r storage kwargs w1 = (w', inl e) /\
      length ps = length before /\
      evs = map (fun rp => EvCreate (fst rp) (inr (snd rp)))
                (combine before ps)
            ++ [EvCreate r (inl e)] /\
      created evs = ps /\
      destroyed evs = [].
Proof.
  intros roles max_turn storage mlc kwargs w w' evs e Hn H.
  unfold __init__ in H.
  destruct (length roles <? 2) eqn:E; [apply Nat.ltb_lt in E; lia|].
  apply bind_inv in H.
  destruct H as [(e' & Hloop & He) | (w1 & t1 & ps & t2 & _ & Hk & _)];
    [|discriminate].
  injection He as <-.
  unfold _create_executor_proxy in Hloop. apply create_loop_cases in Hloop.
  destruct Hloop as (before & r & after & ps & w1 & -> & Hlen & -> & Hc).
  exists before, r, after, ps, w1. repeat split; auto.
  - clear Hn E Hc. revert ps Hlen.
    induction before as [|b before IH]; intros [|p ps] Hlen; simpl in *;
      try discriminate; [reflexivity|].
    f_equal. apply IH. now injection Hlen.
  - now rewrite destroyed_creates.
Qed.

(** X3. Teardown after construction: when no teardown raises, [destroy]
    makes one call per role, on the proxies the constructor created and in
    the order it created them. *)
Theorem X3_destroy_after_init :
  forall roles max_turn storage max_lines_count kwargs w0 w1 evs0 self
         w w' evs u,
    __init__ roles max_turn storage max_lines_count kwargs w0
    = (w1, evs0, inr self) ->
    destroy self w = (w', evs, inr u) ->
    destroyed evs = created evs0 /\
    length evs = length roles /\
    created evs = [].
Proof.
  intros roles max_turn storage mlc kwargs w0 w1 evs0 self w w' evs u
         Hinit Hd.
  apply init_spec in Hinit. destruct Hinit as (_ & _ & _ & Hlen & ->).
  unfold destroy in Hd. apply destroy_loop in Hd. subst evs.
  rewrite created_creates by exact Hlen.
  rewrite length_map, Hlen.
  generalize (_executor_proxies self). intro ps.
  repeat split; induction ps as [|p ps IH]; simpl; congruence.
Qed.

(** *** The resolved inputs *)

Lemma process_role_inputs_inr self inputs r acc w w' evs batch :
  process_role_inputs self inputs r acc w = (w', evs, inr batch) ->
  exists w1 d0 d,
    process_batch_inputs_line r (_max_lines_count self) inputs w
    = (w1, inr d0) /\
    apply_default_value_for_input r d0 w1 = (w', inr d) /\
    batch = acc ++ [d].
Proof.
  unfold process_role_inputs.
  destruct (negb _); [discriminate|].
  destruct (1 <? _); [discriminate|].
  unfold bind, call, ret.
  destruct (process_batch_inputs_line r _ inputs w) as [w1 [e|d0]] eqn:Ep;
    [discriminate|].
  destruct (apply_default_value_for_input r d0 w1) as [w2 [e|d]] eqn:Ea;
    [discriminate|].
  intro H. injection H as <- <- <-. now exists w1, d0, d.
Qed.

Lemma process_batch_loop_inr self inputs roles : forall acc w w' evs batch,
  for_each roles (process_role_inputs self inputs) acc w
  = (w', evs, inr batch) ->
  exists ds,
    batch = acc ++ ds /\
    Forall2
      (fun r d =>
         exists w1 w2 w3 d0,
           process_batch_inputs_line r (_max_lines_count self) inputs w1
           = (w2, inr d0) /\
           apply_default_value_for_input r d0 w2 = (w3, inr d))
      roles ds.
Proof.
  induction roles as [|r roles IH]; intros acc w w' evs batch H; simpl in H.
  - unfold ret in H. injection H as <- <- <-.
    exists []. rewrite app_nil_r. auto.
  - apply bind_inv in H.
    destruct H as [(e & _ & He) | (w1 & t1 & acc1 & t2 & Hb & Hk & ->)];
      [discriminate|].
    apply process_role_inputs_inr in Hb.
    destruct Hb as (w2 & d0 & d & Hp & Ha & ->).
    apply IH in Hk. destruct Hk as (ds & -> & Hall).
    exists (d :: ds). rewrite <- app_assoc. split; [reflexivity|].
    constructor; [|exact Hall]. now exists w, w2, w1, d0.
Qed.

(** X4. When [_process_batch_inputs] returns, it has called no executor,
    every role binds the history expression exactly once, and the result
    has one input per role, in the order of the roles: the input of a role
    is what the batch inputs processor resolved for it, completed by
    [apply_default_value_for_input]. *)
Theorem X4_process_batch_inputs_result :
  forall self inputs w w' evs batch,
    _process_batch_inputs self inputs w = (w', evs, inr batch) ->
    evs = [] /\
    length batch = length (_chat_group_roles self) /\
    Forall (fun r => history_bindings r = 1) (_chat_group_roles self) /\
    Forall2
      (fun r d =>
         exists w1 w2 w3 d0,
           process_batch_inputs_line r (_max_lines_count self) inputs w1
           = (w2, inr d0) /\
           apply_default_value_for_input r d0 w2 = (w3, inr d))
      (_chat_group_roles self) batch.
Proof.
  intros self inputs w w' evs batch H.
  pose proof (process_batch_inputs_spec _ _ _ H) as (-> & Hlen & Hall).
  repeat split; auto.
  unfold _process_batch_inputs in H. apply process_batch_loop_inr in H.
  destruct H as (ds & -> & HF). exact HF.
Qed.

(** X5. The check of the mappings is the only check: when every role
    binds the history expression exactly once and the batch inputs
    processor and [apply_default_value_for_input] do not raise for the
    roles, [_process_batch_inputs] returns. *)
Theorem X5_process_batch_inputs_accepts :
  forall self inputs w,
    forallb (fun r => history_bindings r =? 1) (_chat_group_roles self)
    = true ->
    (forall r w0, In r (_chat_group_roles self) ->
       exists w1 d0,
         process_batch_inputs_line r (_max_lines_count self) inputs w0
         = (w1, inr d0)) ->
    (forall r d0 w0, In r (_chat_group_roles self) ->
       exists w1 d, apply_default_value_for_input r d0 w0 = (w1, inr d)) ->
    exists w' batch,
      _process_batch_inputs self inputs w = (w', [], inr batch) /\
      length batch = length (_chat_group_roles self).
Proof.
  intros self inputs w Hall Hp Ha.
  destruct (_process_batch_inputs self inputs w) as [[w' evs] res] eqn:E.
  pose proof (process_batch_inputs_spec _ _ _ E) as [-> H].
  destruct res as [e|batch].
  - exfalso.
    destruct H as (before & r & after & w1 & w2 & acc & Hroles & _ & Hr).
    assert (Hin : In r (_chat_group_roles self)).
    { rewrite Hroles. apply in_or_app. right. now left. }
    rewrite forallb_forall in Hall. specialize (Hall r Hin).
    apply Nat.eqb_eq in Hall.
    apply process_role_inputs_cases in Hr. destruct Hr as [_ Hr].
    destruct Hr as [(H0 & _) | [(H1 & _) | (_ & Hres)]]; try lia.
    destruct Hres as [Hf | (w3 & d & _ & Hf)].
    + destruct (Hp r w1 Hin) as (w4 & d0 & Hok). congruence.
    + destruct (Ha r d w3 Hin) as (w4 & d1 & Hok). congruence.
  - destruct H as [Hlen _]. now exists w', batch.
Qed.

(** *** The calls of a line *)

Lemma executed_turns_app evs1 evs2 :
  executed_turns (evs1 ++ evs2) = executed_turns evs1 + executed_turns evs2.
Proof.
  unfold executed_turns. now rewrite filter_app, length_app.
Qed.

(** The calls of a scheduling run: those of the completed turns, followed
    by the call that raised when a turn failed in the executor. *)
Lemma schedule_calls self li inputs rid w w' evs res :
  _schedule_line_runs self li inputs rid w = (w', evs, res) ->
  evs = [] \/
  exists wb batch max_turn s tail,
    _process_batch_inputs self inputs w = (wb, [], inr batch) /\
    _max_turn self = Some max_turn /\
    steps self li rid (init_state batch wb) s /\
    sched_inv self li rid s /\
    evs = calls s ++ tail /\
    (tail = [] /\ turn_no s <= Z.to_nat max_turn \/
     exists p input e,
       tail = [EvExec p input li rid (inl e)] /\
       res = inl e /\
       active_proxy self (turn_no s) = Some p /\
       turn_no s < Z.to_nat max_turn /\
       exec_line_async p input li rid (world s) = (w', inl e) /\
       exists r ci k,
         active_role self (turn_no s) = Some r /\
         nth_error (batch_inputs (locals s))
                   (turn_no s mod length (_chat_group_roles self)) = Some ci /\
         conversation_history_key_of (inputs_mapping r) = Some k /\
         input = dict_set ci k (VList (conversation_history (locals s)))).
Proof.
  intro Hrun. apply schedule_cases in Hrun.
  destruct Hrun as [(e & _ & -> & _) | (wb & batch & Hb & Hrun)]; [now left|].
  destruct Hrun as [(_ & -> & _) | (M & s & HM & Hst & Hrun)]; [now left|].
  right. exists wb, batch, M, s.
  pose proof (steps_sched_inv Hst (init_sched_inv self li rid batch wb)) as Hinv.
  destruct Hrun as [(evs2 & e & Hs & Hlt & -> & Hbody & ->) | Hrun].
  - apply turn_body_cases in Hbody. cbv zeta in Hbody.
    destruct Hbody as [(-> & _) | Hbody].
    + exists []. do 5 (split; [solve [auto]|]).
      left. split; [reflexivity|lia].
    + destruct Hbody
        as (p & r & ci & k & out & _ & Hp & Hr & Hci & Hk & Hx & -> & Hout).
      destruct out as [e'|result].
      * injection Hout as ->.
        eexists. do 5 (split; [solve [eauto]|]).
        right. eexists _, _, _. do 5 (split; [solve [eauto]|]).
        exists r, ci, k. auto.
      * destruct Hout as (l' & Hres & _). discriminate.
  - destruct Hrun as (_ & -> & Hfin & _).
    exists []. rewrite app_nil_r. do 5 (split; [solve [auto]|]).
    left. split; [reflexivity|].
    destruct Hfin as [Hstop | ->]; [|lia].
    clear Hinv. induction Hst as [|s1 s2 _ _ Hstep]; [discriminate|].
    destruct Hstep as [s0 m w0 evs0 l0 b0 Hm Hlt0 _ _]. simpl.
    assert (m = M) by congruence. subst m. lia.
Qed.

(** X6. Without a positive turn limit no line completes and no executor
    is called: once the inputs are resolved, scheduling raises [TypeError]
    for the default limit [None] (in [range(self._max_turn)]) and
    [AttributeError] for a limit of 0 or less (no turn runs, and
    [current_line_result] is still [None] when the result is built). *)
Theorem X6_no_positive_turn_limit :
  forall self line_index inputs run_id w wb batch,
    _process_batch_inputs self inputs w = (wb, [], inr batch) ->
    match _max_turn self with
    | Some max_turn => (max_turn <= 0)%Z
    | None => True
    end ->
    _schedule_line_runs self line_index inputs run_id w
    = (wb, [],
       inl match _max_turn self with
           | Some _ => AttributeError
           | None => TypeError
           end).
Proof.
  intros self li inputs rid w wb batch Hb HM.
  unfold _schedule_line_runs, bind. rewrite Hb.
  destruct (_max_turn self) as [M|]; [|reflexivity].
  unfold py_range. replace (Z.to_nat M) with 0 by lia. reflexivity.
Qed.

(** X7. An exception raised by an executor ends the line: if the call of
    turn [t] raises [e], scheduling raises [e] and the call of turn [t] is
    the last call. *)
Theorem X7_executor_exception_ends_line :
  forall self line_index inputs run_id w w' evs res
         t p input line_index' run_id' e,
    _schedule_line_runs self line_index inputs run_id w = (w', evs, res) ->
    nth_error evs t = Some (EvExec p input line_index' run_id' (inl e)) ->
    res = inl e /\ length evs = S t.
Proof.
  intros self li inputs rid w w' evs res t p input li' rid' e Hrun Hev.
  apply schedule_calls in Hrun.
  destruct Hrun as [-> | Hrun]; [now destruct t|].
  destruct Hrun as (wb & batch & M & s & tail & _ & _ & _ & Hinv & -> & Htail).
  destruct Hinv as (I1 & _ & _ & _ & _ & _ & _ & _ & I9).
  destruct (Nat.lt_ge_cases t (turn_no s)) as [Hlt | Hge].
  - exfalso. rewrite nth_error_app1 in Hev by lia.
    destruct (I9 t Hlt) as (p0 & r0 & i0 & res0 & k0 & J1 & _).
    congruence.
  - rewrite nth_error_app2 in Hev by lia.
    destruct Htail as [(-> & _) | (p1 & i1 & e1 & -> & -> & _)].
    + now destruct (t - length (calls s)).
    + destruct (t - length (calls s)) as [|i] eqn:Ei.
      * simpl in Hev. injection Hev as <- <- <- <- <-.
        split; [reflexivity|]. rewrite length_app. simpl. lia.
      * now destruct i.
Qed.

(** X8. Scheduling a line calls nothing but [exec_line_async], and at
    most [max_turn] times. *)
Theorem X8_calls_bounded_by_max_turn :
  forall self line_index inputs run_id w w' evs res,
    _schedule_line_runs self line_index inputs run_id w = (w', evs, res) ->
    executed_turns evs = length evs /\
    length evs <= match _max_turn self with
                  | Some max_turn => Z.to_nat max_turn
                  | None => 0
                  end.
Proof.
  intros self li inputs rid w w' evs res Hrun.
  apply schedule_calls in Hrun.
  destruct Hrun as [-> | Hrun]; [split; [reflexivity|simpl; lia]|].
  destruct Hrun as (wb & batch & M & s & tail & _ & -> & _ & Hinv & -> & Htail).
  pose proof (sched_inv_executed_turns Hinv) as Hex.
  destruct Hinv as (I1 & _).
  rewrite executed_turns_app, length_app, Hex, I1.
  destruct Htail as [(-> & Hle) | (p & input & e & -> & _ & _ & Hlt & _)];
    cbn [executed_turns filter is_exec length]; split; lia.
Qed.

(** X9. Every call of a line, whether it returns or raises, is made on
    the executor proxy at index [t mod N] for turn [t], with the line
    index and the run id the line was scheduled with. *)
Theorem X9_every_call_round_robin :
  forall self line_index inputs run_id w w' evs res t ev,
    _schedule_line_runs self line_index inputs run_id w = (w', evs, res) ->
    nth_error evs t = Some ev ->
    exists p input out,
      ev = EvExec p input line_index run_id out /\
      nth_error (_executor_proxies self)
                (t mod length (_chat_group_roles self)) = Some p.
Proof.
  intros self li inputs rid w w' evs res t ev Hrun Hev.
  apply schedule_calls in Hrun.
  destruct Hrun as [-> | Hrun]; [now destruct t|].
  destruct Hrun as (wb & batch & M & s & tail & _ & _ & _ & Hinv & -> & Htail).
  destruct Hinv as (I1 & _ & _ & _ & _ & _ & _ & _ & I9).
  destruct (Nat.lt_ge_cases t (turn_no s)) as [Hlt | Hge].
  - rewrite nth_error_app1 in Hev by lia.
    destruct (I9 t Hlt) as (p0 & r0 & i0 & res0 & k0 & J1 & _ & J3 & _).
    rewrite J1 in Hev. injection Hev as <-. eauto.
  - rewrite nth_error_app2 in Hev by lia.
    destruct Htail as [(-> & _) | (p1 & i1 & e1 & -> & _ & Hp & _)].
    + now destruct (t - length (calls s)).
    + destruct (t - length (calls s)) as [|i] eqn:Ei.
      * simpl in Hev. injection Hev as <-.
        replace t with (turn_no s) by lia. eauto.
      * now destruct i.
Qed.

(** *** What the executor is called with *)

(** X10. At turn [t] the executor is called with the conversation so far:
    the input bound to the history expression holds exactly [t] records,
    the records of the turns [0 .. t-1] in turn order, whether the call
    returns or raises.  The first turn gets the empty list. *)
Theorem X10_executor_gets_previous_records :
  forall self line_index inputs run_id w w' evs res
         t p input line_index' run_id' out r k,
    _schedule_line_runs self line_index inputs run_id w = (w', evs, res) ->
    nth_error evs t = Some (EvExec p input line_index' run_id' out) ->
    active_role self t = Some r ->
    conversation_history_key_of (inputs_mapping r) = Some k ->
    exists history,
      dict_get input k = Some (VList history) /\
      length history = t /\
      forall t' p' input' line_index'' run_id'' result' r',
        t' < t ->
        nth_error evs t' =
          Some (EvExec p' input' line_index'' run_id'' (inr result')) ->
        active_role self t' = Some r' ->
        nth_error history t' = Some (turn_record r' result').
Proof.
  intros self li inputs rid w w' evs res t p input li' rid' out r k
         Hrun Hev Hr Hk.
  apply schedule_calls in Hrun.
  destruct Hrun as [-> | Hrun]; [now destruct t|].
  destruct Hrun as (wb & batch & M & s & tail & _ & _ & _ & Hinv & -> & Htail).
  destruct Hinv as (I1 & _ & I3 & _ & _ & _ & _ & _ & I9).
  assert (Hrec : forall t' p' input' li'' rid'' result' r',
             t' < turn_no s ->
             nth_error (calls s ++ tail) t' =
               Some (EvExec p' input' li'' rid'' (inr result')) ->
             active_role self t' = Some r' ->
             nth_error (conversation_history (locals s)) t'
             = Some (turn_record r' result')).
  { intros t' p' input' li'' rid'' result' r' Hlt Hev' Hr'.
    rewrite nth_error_app1 in Hev' by lia.
    destruct (I9 t' Hlt)
      as (p0 & r0 & i0 & res0 & k0 & J1 & _ & _ & J4 & J5 & _).
    rewrite J1 in Hev'. injection Hev' as <- <- <- <- <-.
    rewrite J4 in Hr'. injection Hr' as <-. exact J5. }
  destruct (Nat.lt_ge_cases t (turn_no s)) as [Hlt | Hge].
  - rewrite nth_error_app1 in Hev by lia.
    destruct (I9 t Hlt)
      as (p0 & r0 & i0 & res0 & k0 & J1 & _ & _ & J4 & _ & J6 & J7 & _).
    rewrite J1 in Hev. injection Hev as <- <- <- <- <-.
    rewrite J4 in Hr. injection Hr as <-.
    rewrite J6 in Hk. injection Hk as <-.
    exists (firstn t (conversation_history (locals s))).
    split; [exact J7|]. split; [rewrite length_firstn; lia|].
    intros t' p' input' li'' rid'' result' r' Hlt' Hev' Hr'.
    rewrite nth_error_firstn.
    replace (t' <? t) with true by (symmetry; apply Nat.ltb_lt; lia).
    eapply Hrec; eauto. lia.
  - rewrite nth_error_app2 in Hev by lia.
    destruct Htail
      as [(-> & _) |
          (p1 & i1 & e1 & -> & _ & _ & _ & _ & r1 & ci & k1 & Hr1 & _ & Hk1 & ->)].
    + now destruct (t - length (calls s)).
    + destruct (t - length (calls s)) as [|i] eqn:Ei; [|now destruct i].
      simpl in Hev. injection Hev as <- <- <- <- <-.
      assert (t = turn_no s) by lia. subst t.
      rewrite Hr1 in Hr. injection Hr as <-.
      rewrite Hk1 in Hk. injection Hk as <-.
      exists (conversation_history (locals s)).
      split; [apply dict_get_set_same|]. split; [exact I3|].
      intros t' p' input' li'' rid'' result' r' Hlt' Hev' Hr'.
      eapply Hrec; eauto.
Qed.

Lemma nth_error_list_set_same (A : Type) (l : list A) : forall n a x,
  nth_error l n = Some x -> nth_error (list_set l n a) n = Some a.
Proof.
  induction l as [|y l IH]; intros [|n] a x H; simpl in *;
    try discriminate; eauto.
Qed.

Lemma nth_error_list_set_other (A : Type) (l : list A) : forall n a i,
  i <> n -> nth_error (list_set l n a) i = nth_error l i.
Proof.
  induction l as [|y l IH]; intros [|n] a [|i] H; simpl; auto.
  contradiction.
Qed.

(** Between two turns, the resolved input of a role differs from what
    [_process_batch_inputs] returned for it at most in the input bound to
    the history, and so did the inputs of the calls made so far. *)
Lemma steps_inputs_agree self li rid batch w0 s :
  steps self li rid (init_state batch w0) s ->
  let n := length (_chat_group_roles self) in
  (forall i d0,
      nth_error batch i = Some d0 ->
      exists d,
        nth_error (batch_inputs (locals s)) i = Some d /\
        forall r k k',
          nth_error (_chat_group_roles self) i = Some r ->
          conversation_history_key_of (inputs_mapping r) = Some k ->
          k' <> k -> dict_get d k' = dict_get d0 k') /\
  (forall t p input li' rid' out,
      nth_error (calls s) t = Some (EvExec p input li' rid' out) ->
      exists d0,
        nth_error batch (t mod n) = Some d0 /\
        forall r k k',
          active_role self t = Some r ->
          conversation_history_key_of (inputs_mapping r) = Some k ->
          k' <> k -> dict_get input k' = dict_get d0 k').
Proof.
  intros Hst n. subst n.
  induction Hst as [|s1 s2 Hst IH Hstep].
  - simpl. split.
    + intros i d0 Hi. exists d0. auto.
    + intros t p input li' rid' out Ht. now destruct t.
  - destruct IH as [IH1 IH2].
    assert (Hinv : sched_inv self li rid s1).
    { eapply steps_sched_inv; [exact Hst|apply init_sched_inv]. }
    destruct Hinv as (I1 & _).
    pose proof (steps_batch_length Hst) as Hbl. simpl in Hbl.
    apply step_inv in Hstep.
    destruct Hstep as (p & r & ci & k & result & Hstep). cbv zeta in Hstep.
    destruct Hstep as (_ & Hr & Hci & Hk & _ & _ & Hc & _ & Hb & _).
    set (n := length (_chat_group_roles self)) in *.
    assert (Hagree : exists d0,
               nth_error batch (turn_no s1 mod n) = Some d0 /\
               forall k', k' <> k -> dict_get ci k' = dict_get d0 k').
    { destruct (nth_error batch (turn_no s1 mod n)) as [d0|] eqn:Ed0.
      - exists d0. split; [reflexivity|]. intros k' Hne.
        destruct (IH1 _ _ Ed0) as (d & Hd & Hag).
        rewrite Hci in Hd. injection Hd as <-.
        eapply Hag; eauto.
      - exfalso. apply nth_error_None in Ed0.
        assert (nth_error (batch_inputs (locals s1)) (turn_no s1 mod n)
                <> None) by congruence.
        apply nth_error_Some in H. lia. }
    destruct Hagree as (d0 & Hd0 & Hag0).
    split.
    + intros i d1 Hi. rewrite Hb.
      destruct (Nat.eq_dec i (turn_no s1 mod n)) as [->|Hne].
      * rewrite Hd0 in Hi. injection Hi as <-.
        eexists. split; [eapply nth_error_list_set_same; eauto|].
        intros r' k0 k' Hr' Hk0 Hne.
        unfold active_role in Hr. fold n in Hr.
        rewrite Hr in Hr'. injection Hr' as <-.
        rewrite Hk in Hk0. injection Hk0 as <-.
        rewrite dict_get_set_other by congruence. auto.
      * rewrite nth_error_list_set_other by exact Hne. auto.
    + intros t p0 input li' rid' out Ht. rewrite Hc in Ht.
      destruct (Nat.lt_ge_cases t (turn_no s1)) as [Hlt | Hge].
      * rewrite nth_error_app1 in Ht by lia. eauto.
      * rewrite nth_error_app2 in Ht by lia.
        destruct (t - length (calls s1)) as [|j] eqn:Ej; [|now destruct j].
        simpl in Ht. injection Ht as <- <- <- <- <-.
        assert (t = turn_no s1) by lia. subst t.
        exists d0. split; [exact Hd0|].
        intros r' k0 k' Hr' Hk0 Hne.
        rewrite Hr in Hr'. injection Hr' as <-.
        rewrite Hk in Hk0. injection Hk0 as <-.
        rewrite dict_get_set_other by congruence. auto.
Qed.

(** X11. The scheduler changes one input only: apart from the input bound
    to the history expression, every input of the call of turn [t] has the
    value that [_process_batch_inputs] resolved for the role at index
    [t mod N], at every turn of the line. *)
Theorem X11_other_inputs_as_resolved :
  forall self line_index inputs run_id w wb batch w' evs res
         t p input line_index' run_id' out r k,
    _process_batch_inputs self inputs w = (wb, [], inr batch) ->
    _schedule_line_runs self line_index inputs run_id w = (w', evs, res) ->
    nth_error evs t = Some (EvExec p input line_index' run_id' out) ->
    active_role self t = Some r ->
    conversation_history_key_of (inputs_mapping r) = Some k ->
    exists resolved,
      nth_error batch (t mod length (_chat_group_roles self)) = Some resolved /\
      forall k', k' <> k -> dict_get input k' = dict_get resolved k'.
Proof.
  intros self li inputs rid w wb batch w' evs res t p input li' rid' out r k
         Hb Hrun Hev Hr Hk.
  apply schedule_calls in Hrun.
  destruct Hrun as [-> | Hrun]; [now destruct t|].
  destruct Hrun
    as (wb' & batch' & M & s & tail & Hb' & _ & Hst & Hinv & -> & Htail).
  rewrite Hb in Hb'. injection Hb' as <- <-.
  destruct Hinv as (I1 & _).
  destruct (steps_inputs_agree Hst) as [A1 A2].
  destruct (Nat.lt_ge_cases t (turn_no s)) as [Hlt | Hge].
  - rewrite nth_error_app1 in Hev by lia.
    destruct (A2 _ _ _ _ _ _ Hev) as (d0 & Hd0 & Hag).
    exists d0. split; [exact Hd0|]. intros k' Hne. eapply Hag; eauto.
  - rewrite nth_error_app2 in Hev by lia.
    destruct Htail
      as [(-> & _) |
          (p1 & i1 & e1 & -> & _ & _ & _ & _ & r1 & ci & k1 & Hr1 & Hci & Hk1 & ->)].
    + now destruct (t - length (calls s)).
    + destruct (t - length (calls s)) as [|i] eqn:Ei; [|now destruct i].
      simpl in Hev. injection Hev as <- <- <- <- <-.
      assert (t = turn_no s) by lia. subst t.
      rewrite Hr1 in Hr. injection Hr as <-.
      rewrite Hk1 in Hk. injection Hk as <-.
      pose proof (steps_batch_length Hst) as Hbl. simpl in Hbl.
      destruct (nth_error batch
                  (turn_no s mod length (_chat_group_roles self)))
        as [d0|] eqn:Ed0.
      * exists d0. split; [reflexivity|]. intros k' Hne.
        destruct (A1 _ _ Ed0) as (d & Hd & Hag).
        rewrite Hci in Hd. injection Hd as <-.
        rewrite dict_get_set_other by congruence.
        eapply Hag; eauto.
      * exfalso. apply nth_error_None in Ed0.
        assert (nth_error (batch_inputs (locals s))
                  (turn_no s mod length (_chat_group_roles self)) <> None)
          by congruence.
        apply nth_error_Some in H. lia.
Qed.

(** *** How a line ends *)

Lemma steps_stopped self li rid batch w0 s :
  steps self li rid (init_state batch w0) s ->
  stopped s = true ->
  exists r last,
    active_role self (pred (turn_no s)) = Some r /\
    last_result (exec_results (calls s)) = Some last /\
    stop_matched r last = true.
Proof.
  intros Hst Hstop. destruct Hst as [|s1 s2 _ Hstep]; [discriminate|].
  apply step_inv in Hstep.
  destruct Hstep as (p & r & ci & k & result & Hstep). cbv zeta in Hstep.
  destruct Hstep as (_ & Hr & _ & _ & _ & Ht & Hc & Hs & _).
  exists r, result. rewrite Ht, Hc, exec_results_app. simpl.
  rewrite last_result_snoc. repeat split; auto. congruence.
Qed.

(** X12. The stop signal is the only way out of the loop before the turn
    limit: when a line returns, no turn but the last has an output that
    matches the stop signal of its role, and either [max_turn] turns ran
    or the output of the last turn matches the stop signal of the role of
    that turn. *)
Theorem X12_early_exit_only_by_stop_signal :
  forall self line_index inputs run_id w w' evs line_result max_turn,
    _schedule_line_runs self line_index inputs run_id w
    = (w', evs, inr line_result) ->
    _max_turn self = Some max_turn ->
    turns_without_stop self 0 (removelast evs) = true /\
    (length evs = Z.to_nat max_turn \/
     exists r last,
       active_role self (pred (length evs)) = Some r /\
       last_result (exec_results evs) = Some last /\
       stop_matched r last = true).
Proof.
  intros self li inputs rid w w' evs lr M Hrun HM.
  apply schedule_cases in Hrun.
  destruct Hrun as [(e & _ & _ & He) | (wb & batch & _ & Hrun)];
    [discriminate|].
  destruct Hrun as [(_ & _ & _ & He) | (M' & s & HM' & Hst & Hrun)];
    [discriminate|].
  destruct Hrun as [(evs2 & e & _ & _ & _ & _ & He) | Hrun]; [discriminate|].
  destruct Hrun as (_ & -> & Hfin & _).
  assert (M' = M) by congruence. subst M'.
  pose proof (steps_sched_inv Hst (init_sched_inv self li rid batch wb)) as Hinv.
  destruct Hinv as (I1 & _ & _ & _ & _ & _ & _ & I8 & _).
  split; [exact I8|]. rewrite I1.
  destruct Hfin as [Hstop | Hk]; [right|now left].
  eapply steps_stopped; eauto.
Qed.

(** Why scheduling raises when there is one proxy and one resolved input
    per role. *)
Lemma schedule_failure_cases self li inputs rid w wb batch w' evs e :
  length (_chat_group_roles self) <> 0 ->
  length (_executor_proxies self) = length (_chat_group_roles self) ->
  _process_batch_inputs self inputs w = (wb, [], inr batch) ->
  _schedule_line_runs self li inputs rid w = (w', evs, inl e) ->
  (_max_turn self = None /\ e = TypeError /\ evs = []) \/
  (exists max_turn,
      _max_turn self = Some max_turn /\ (max_turn <= 0)%Z /\
      e = AttributeError /\ evs = []) \/
  (exists evs1 p input w1,
      evs = evs1 ++ [EvExec p input li rid (inl e)] /\
      In p (_executor_proxies self) /\
      exec_line_async p input li rid w1 = (w', inl e)).
Proof.
  intros Hn Hp Hb Hrun.
  pose proof (process_batch_inputs_spec _ _ _ Hb) as (_ & Hlen & Hall).
  apply schedule_cases in Hrun.
  destruct Hrun as [(e' & Hb' & _) | (wb' & batch' & Hb' & Hrun)];
    [congruence|].
  rewrite Hb in Hb'. injection Hb' as <- <-.
  destruct Hrun as [(HM & -> & _ & He) | (M & s & HM & Hst & Hrun)].
  { left. injection He as <-. auto. }
  right.
  pose proof (steps_sched_inv Hst (init_sched_inv self li rid batch wb)) as Hinv.
  pose proof (steps_batch_length Hst) as Hbl. simpl in Hbl.
  destruct Hrun as [(evs2 & e' & Hs & Hlt & -> & Hbody & He) | Hrun].
  - right. injection He as <-.
    pose proof Hbody as Hbody'.
    apply turn_body_fails_in_executor in Hbody'; try congruence.
    destruct Hbody' as (p0 & input0 & ->).
    apply turn_body_cases in Hbody. cbv zeta in Hbody.
    destruct Hbody as [(Hnil & _) | Hbody]; [discriminate|].
    destruct Hbody
      as (p & r & ci & k & out & _ & Hap & _ & _ & _ & Hx & Hev & Hout).
    injection Hev as -> -> <-.
    eexists (calls s), p, _, (world s).
    split; [reflexivity|]. split; [|exact Hx].
    unfold active_proxy in Hap. now apply nth_error_In in Hap.
  - left. destruct Hrun as (_ & -> & Hfin & Hres).
    destruct Hinv as (I1 & I2 & _ & _ & _ & I6 & I7 & _).
    destruct (current_line_result (locals s)) as [last|] eqn:Hlast;
      [discriminate|].
    injection Hres as <-.
    assert (Hk : turn_no s = 0).
    { destruct (exec_results (calls s)) as [|x xs] eqn:Er.
      - simpl in I2. lia.
      - exfalso. unfold last_result in I6.
        assert (nth_error (x :: xs) (pred (length (x :: xs))) <> None).
        { apply nth_error_Some. simpl. lia. }
        congruence. }
    assert (Hc : calls s = []).
    { destruct (calls s); [reflexivity|]. simpl in I1. lia. }
    exists M. repeat split; auto.
    destruct Hfin as [Hstop | HkM]; [|lia].
    rewrite Hc, Hstop in I7. discriminate.
Qed.

(** X13. For a constructed orchestrator whose inputs resolve, scheduling a
    line raises in three cases only: [TypeError] when [max_turn] is
    [None], [AttributeError] when [max_turn] is 0 or less, both without any
    executor call, and otherwise the exception that the last executor call
    raised.  So the checks of the loop itself (the modulo, the three
    indexings, the search of the history key) never fail there. *)
Theorem X13_why_a_line_fails :
  forall roles max_turn storage max_lines_count kwargs w0 w1 evs0 self
         line_index inputs run_id w wb batch w' evs e,
    __init__ roles max_turn storage max_lines_count kwargs w0
    = (w1, evs0, inr self) ->
    _process_batch_inputs self inputs w = (wb, [], inr batch) ->
    _schedule_line_runs self line_index inputs run_id w = (w', evs, inl e) ->
    (max_turn = None /\ e = TypeError /\ evs = []) \/
    (exists m, max_turn = Some m /\ (m <= 0)%Z /\
               e = AttributeError /\ evs = []) \/
    (exists evs1 p input w2,
        evs = evs1 ++ [EvExec p input line_index run_id (inl e)] /\
        In p (_executor_proxies self) /\
        exec_line_async p input line_index run_id w2 = (w', inl e)).
Proof.
  intros roles max_turn storage mlc kwargs w0 w1 evs0 self li inputs rid
         w wb batch w' evs e Hinit Hb Hrun.
  apply init_spec in Hinit.
  destruct Hinit as (HN & Hroles & Hmax & Hproxies & _).
  rewrite <- Hmax.
  eapply schedule_failure_cases; eauto; rewrite Hroles; lia.
Qed.

(** X14. A line completes when nothing outside the scheduler fails: for an
    orchestrator constructed with a turn limit of at least 1, when the
    inputs resolve and the executors of the orchestrator do not raise,
    scheduling returns a line result after at least one and at most
    [max_turn] executor calls. *)
Theorem X14_line_completes :
  forall roles max_turn storage max_lines_count kwargs w0 w1 evs0 self
         line_index inputs run_id w wb batch,
    __init__ roles (Some max_turn) storage max_lines_count kwargs w0
    = (w1, evs0, inr self) ->
    (1 <= max_turn)%Z ->
    _process_batch_inputs self inputs w = (wb, [], inr batch) ->
    (forall p input w2,
        In p (_executor_proxies self) ->
        exists w3 result,
          exec_line_async p input line_index run_id w2 = (w3, inr result)) ->
    exists w' evs line_result,
      _schedule_line_runs self line_index inputs run_id w
      = (w', evs, inr line_result) /\
      1 <= length evs <= Z.to_nat max_turn.
Proof.
  intros roles M storage mlc kwargs w0 w1 evs0 self li inputs rid w wb batch
         Hinit HM Hb Hexec.
  apply init_spec in Hinit.
  destruct Hinit as (HN & Hroles & Hmax & Hproxies & _).
  destruct (_schedule_line_runs self li inputs rid w) as [[w' evs] res] eqn:Hrun.
  destruct res as [e|lr].
  - exfalso.
    eapply schedule_failure_cases in Hrun; eauto; try (rewrite Hroles; lia).
    destruct Hrun as [(Hnone & _) | [(m & Hm & Hle & _) | Hrun]].
    + congruence.
    + assert (m = M) by congruence. lia.
    + destruct Hrun as (evs1 & p & input & w2 & _ & Hin & Hx).
      destruct (Hexec p input w2 Hin) as (w3 & result & Hok). congruence.
  - exists w', evs, lr. split; [reflexivity|].
    pose proof Hrun as Hret. apply schedule_returns in Hret.
    destruct Hret as (wb' & batch' & s' & last & Hst' & -> & Hk & _).
    pose proof (steps_sched_inv Hst' (init_sched_inv self li rid batch' wb'))
      as (I1 & _).
    split; [lia|].
    apply schedule_calls in Hrun.
    destruct Hrun as [Hnil | Hrun]; [rewrite Hnil in I1; simpl in I1; lia|].
    destruct Hrun
      as (wb2 & batch2 & M2 & s & tail & _ & HM2 & _ & Hinv & Hc & Htail).
    assert (M2 = M) by congruence. subst M2.
    destruct Hinv as (J1 & _).
    destruct Htail as [(-> & Hle) | (p & input & e & _ & He & _)];
      [|discriminate].
    rewrite Hc, app_nil_r, J1. exact Hle.
Qed.

(** *** The record of a turn *)

Lemma key_eqb_sym (a b : key) : key_eqb a b = key_eqb b a.
Proof.
  destruct (key_eqb b a) eqn:E.
  - apply key_eqb_eq in E. subst. apply key_eqb_refl.
  - apply key_eqb_neq. apply key_eqb_neq in E. congruence.
Qed.

Lemma dict_keys_set (V : Type) (d : list (key * V)) k v :
  dict_keys (dict_set d k v) =
  if existsb (key_eqb k) (dict_keys d) then dict_keys d
  else dict_keys d ++ [k].
Proof.
  unfold dict_keys. induction d as [|[k1 v1] d IH]; simpl; [reflexivity|].
  rewrite (key_eqb_sym k k1). destruct (key_eqb k1 k); simpl; [reflexivity|].
  rewrite IH. now destruct (existsb (key_eqb k) (map fst d)).
Qed.

(** The keys after [d.update(other)]: those of [d], then the new keys of
    [other] in the order of [other]. *)
Lemma dict_keys_update (V : Type) (other : list (key * V)) : forall d,
  dict_wfb other = true ->
  dict_keys (dict_update d other) =
  dict_keys d
  ++ filter (fun k => negb (existsb (key_eqb k) (dict_keys d)))
            (dict_keys other).
Proof.
  induction other as [|[k1 v1] other IH]; intros d Hwf; simpl in *.
  - now rewrite app_nil_r.
  - apply andb_true_iff in Hwf. destruct Hwf as [Hk1 Hwf].
    apply negb_true_iff in Hk1.
    fold (dict_update (dict_set d k1 v1) other).
    rewrite (IH _ Hwf), dict_keys_set.
    destruct (existsb (key_eqb k1) (dict_keys d)) eqn:E; simpl.
    + reflexivity.
    + rewrite <- app_assoc. simpl. do 2 f_equal.
      apply filter_ext_in. intros k Hin.
      rewrite existsb_app. simpl. rewrite orb_false_r.
      assert (key_eqb k k1 = false) as ->; [|now rewrite orb_false_r].
      apply key_eqb_neq. intros ->.
      assert (existsb (key_eqb k1) (dict_keys other) = true); [|congruence].
      apply existsb_exists. exists k1. split; [exact Hin|apply key_eqb_refl].
Qed.

(** X15. The record of a turn begins with the field ["role"] and goes on
    with the other fields of the executor output, in the order of the
    output and with the values of the output.  [_process_flow_outputs]
    appends the record to the history and writes the entry of the turn,
    and no other entry, in the outputs and in the aggregation inputs. *)
Theorem X15_record_fields_in_output_order :
  forall index chat_role result history outs aggs,
    dict_wfb (output result) = true ->
    match _process_flow_outputs index chat_role result history outs aggs with
    | (history', outs', aggs') =>
        exists record,
          history' = history ++ [VDict record] /\
          dict_keys record =
            KStr "role"
            :: filter (fun k => negb (key_eqb k (KStr "role")))
                      (dict_keys (output result)) /\
          (forall k, k <> KStr "role" ->
                     dict_get record k = dict_get (output result) k) /\
          dict_get outs' (KInt index) = Some (VDict record) /\
          dict_get aggs' (KInt index)
          = Some (VDict (aggregation_inputs result)) /\
          (forall k, k <> KInt index ->
                     dict_get outs' k = dict_get outs k /\
                     dict_get aggs' k = dict_get aggs k)
    end.
Proof.
  intros index chat_role result history outs aggs Hwf.
  unfold _process_flow_outputs.
  exists (dict_update [(KStr "role", VStr (role chat_role))] (output result)).
  split; [reflexivity|]. split.
  { rewrite dict_keys_update by exact Hwf. simpl. f_equal.
    apply filter_ext. intro k. now rewrite orb_false_r. }
  split.
  { intros k Hne.
    destruct (dict_get (output result) k) as [v|] eqn:E.
    - now apply dict_update_get.
    - rewrite dict_update_get_notin by exact E. cbn [dict_get].
      assert (key_eqb (KStr "role") k = false) as ->; [|reflexivity].
      apply key_eqb_neq. congruence. }
  assert (Hone : forall (d : pydict) k v,
             dict_update d [(k, v)] = dict_set d k v) by reflexivity.
  rewrite !Hone. repeat split.
  - apply dict_get_set_same.
  - apply dict_get_set_same.
  - apply dict_get_set_other. congruence.
  - apply dict_get_set_other. congruence.
Qed.

End Orchestrator.

(** ** The scripted conversation *)

Import Example.

(** Roles A and B with stop signal "bye" and a limit of 4 turns: A says
    "hi", B says "bye", and the line ends after 2 turns. *)
Example scripted_line :
  _schedule_line_runs exec_line process_line apply_default
    expression output_key
    {| _storage := (None : option unit);
       _max_turn := Some 4%Z;
       _chat_group_roles := [role_A "bye"; role_B "bye"];
       _max_lines_count := None;
       _executor_proxies := ["A.yaml"; "B.yaml"]%string |}
    7 VNone (VStr "run") 0
  = (2,
     [EvExec "A.yaml"%string
        [(KStr "question", VStr "${data.question}");
         (KStr "chat_history", VList [])]
        7 (VStr "run")
        (inr {| output := [(KStr "msg", VStr "hi")];
                aggregation_inputs := [(KStr "call", VInt 0)];
                run_info := VInt 0;
                node_run_infos := VStr "A.yaml" |});
      EvExec "B.yaml"%string
        [(KStr "question", VStr "${data.question}");
         (KStr "chat_history",
          VList [VDict [(KStr "role", VStr "user"); (KStr "msg", VStr "hi")]])]
        7 (VStr "run")
        (inr {| output := [(KStr "msg", VStr "bye")];
                aggregation_inputs := [(KStr "call", VInt 1)];
                run_info := VInt 1;
                node_run_infos := VStr "B.yaml" |})],
     inr {| output :=
              [(KInt 0,
                VDict [(KStr "role", VStr "user"); (KStr "msg", VStr "hi")]);
               (KInt 1,
                VDict [(KStr "role", VStr "assistant");
                       (KStr "msg", VStr "bye")]);
               (KStr "conversation_history",
                VList
                  [VDict [(KStr "role", VStr "user"); (KStr "msg", VStr "hi")];
                   VDict [(KStr "role", VStr "assistant");
                          (KStr "msg", VStr "bye")]])];
            aggregation_inputs :=
              [(KInt 0, VDict [(KStr "call", VInt 0)]);
               (KInt 1, VDict [(KStr "call", VInt 1)])];
            run_info := VInt 1;
            node_run_infos := VStr "B.yaml" |}).
Proof. vm_compute. reflexivity. Qed.

(** With an executor whose output has a field "role", the records of the
    line carry the executor's value, not the kind of the role. *)
Example scripted_line_role_field :
  returned_output
    (_schedule_line_runs exec_line_role process_line apply_default
       expression output_key
       {| _storage := (None : option unit);
          _max_turn := Some 1%Z;
          _chat_group_roles := [role_A "bye"; role_B "bye"];
          _max_lines_count := None;
          _executor_proxies := ["A.yaml"; "B.yaml"]%string |}
       7 VNone (VStr "run") 0)
  = Some
      [(KInt 0,
        VDict [(KStr "role", VStr "system"); (KStr "msg", VStr "hi")]);
       (KStr "conversation_history",
        VList [VDict [(KStr "role", VStr "system");
                      (KStr "msg", VStr "hi")]])].
Proof. vm_compute. reflexivity. Qed.

(** The roles are checked in order: the role with two bindings is met
    before the role with none. *)
Example scripted_line_bad_mapping :
  _schedule_line_runs exec_line process_line apply_default
    expression output_key
    {| _storage := (None : option unit);
       _max_turn := Some 4%Z;
       _chat_group_roles := [role_A "bye"; role_twice; role_unbound];
       _max_lines_count := None;
       _executor_proxies := ["A.yaml"; "D.yaml"; "C.yaml"]%string |}
    7 VNone (VStr "run") 0
  = (0, [], inl (MultipleConversationHistoryInputsMapping "assistant" "D")).
Proof. vm_compute. reflexivity. Qed.

Lemma C1_round_robin_witness :
  exists self evs0 evs res,
    __init__ create_proxy [role_A "never"; role_B "never"] (Some 3%Z)
             (None : option unit) None [] 0 = (0, evs0, inr self) /\
    _schedule_line_runs exec_line process_line apply_default
      expression output_key self 7 VNone (VStr "run") 0 = (3, evs, res) /\
    executed_turns evs = 3 /\
    exists line_result, res = inr line_result.
Proof.
  eexists _, _, _, _.
  split; [vm_compute; reflexivity|]. split; [vm_compute; reflexivity|].
  epose proof (C1_round_robin
                 create_proxy exec_line process_line apply_default
                 expression output_key
                 [role_A "never"; role_B "never"] (max_turn := 3%Z)
                 (None : option unit) None [] 0 7 VNone (VStr "run") 0) as H.
  edestruct H as (_ & H1 & _ & _ & H2).
  - vm_compute; reflexivity.
  - lia.
  - vm_compute; reflexivity.
  - vm_compute; reflexivity.
  - reflexivity.
  - split; [exact H1|]. apply H2. lia.
Defined.

Lemma C2_stop_signal_ends_line_witness :
  let self :=
    {| _storage := (None : option unit);
       _max_turn := Some 4%Z;
       _chat_group_roles := [role_A "bye"; role_B "bye"];
       _max_lines_count := None;
       _executor_proxies := ["A.yaml"; "B.yaml"]%string |} in
  exists evs res,
    _schedule_line_runs exec_line process_line apply_default
      expression output_key self 7 VNone (VStr "run") 0 = (2, evs, res) /\
    length evs = 2 /\ executed_turns evs = 2 /\
    exists line_result, res = inr line_result.
Proof.
  intro self. eexists _, _.
  split; [vm_compute; reflexivity|].
  eapply (C2_stop_signal_ends_line
            exec_line process_line apply_default expression output_key
            self 7 VNone (VStr "run") 0 1).
  - vm_compute; reflexivity.
  - reflexivity.
  - reflexivity.
  - reflexivity.
Defined.

Lemma C3_history_after_k_turns_witness :
  let self :=
    {| _storage := (None : option unit);
       _max_turn := Some 4%Z;
       _chat_group_roles := [role_A "bye"; role_B "bye"];
       _max_lines_count := None;
       _executor_proxies := ["A.yaml"; "B.yaml"]%string |} in
  exists s,
    steps exec_line expression self 7 (VStr "run")
          (init_state string [good_mapping; good_mapping] 0) s /\
    turn_no s = 1 /\
    conversation_history (locals s)
    = [VDict [(KStr "role", VStr "user"); (KStr "msg", VStr "hi")]] /\
    length (conversation_history (locals s)) = turn_no s.
Proof.
  intro self. eexists.
  eassert (Hst : steps exec_line expression self 7 (VStr "run")
                      (init_state string [good_mapping; good_mapping] 0)
                      {| turn_no := 1;
                         calls := _;
                         locals := _;
                         stopped := _;
                         world := _ |}).
  { eapply steps_snoc; [apply steps_refl|].
    eapply (step_turn exec_line expression self 7 (VStr "run")
                      (init_state string [good_mapping; good_mapping] 0)
                      (max_turn := 4%Z)).
    - reflexivity.
    - simpl. lia.
    - reflexivity.
    - vm_compute. reflexivity. }
  split; [exact Hst|]. split; [reflexivity|]. split; [reflexivity|].
  exact (proj1 (C3_history_after_k_turns Hst)).
Defined.

Lemma C4_invalid_role_count_witness :
  __init__ create_proxy [role_A "bye"] (Some 4%Z) (None : option unit)
           None [] 0
  = (0, [], inl (InvalidChatRoleCount 1)).
Proof.
  apply (C4_invalid_role_count create_proxy [role_A "bye"] (Some 4%Z)
           (None : option unit) None [] 0).
  simpl. lia.
Defined.

Lemma C5_invalid_mapping_fails_before_any_turn_witness :
  let self :=
    {| _storage := (None : option unit);
       _max_turn := Some 4%Z;
       _chat_group_roles := [role_A "bye"; role_twice; role_unbound];
       _max_lines_count := None;
       _executor_proxies := ["A.yaml"; "D.yaml"; "C.yaml"]%string |} in
  exists w' e,
    _schedule_line_runs exec_line process_line apply_default
      expression output_key self 7 VNone (VStr "run") 0 = (w', [], inl e).
Proof.
  intro self.
  destruct (C5_invalid_mapping_fails_before_any_turn
              exec_line process_line apply_default expression output_key
              self 7 VNone (VStr "run") 0) as (w' & e & H & _).
  - reflexivity.
  - now exists w', e.
Defined.

Lemma C6_history_key_round_trip_witness :
  let self :=
    {| _storage := (None : option unit);
       _max_turn := Some 4%Z;
       _chat_group_roles := [role_A "bye"; role_B "bye"];
       _max_lines_count := None;
       _executor_proxies := ["A.yaml"; "B.yaml"]%string |} in
  exists evs line_result history,
    _schedule_line_runs exec_line process_line apply_default
      expression output_key self 7 VNone (VStr "run") 0
    = (2, evs, inr line_result) /\
    dict_get (output line_result) (KStr output_key) = Some (VList history) /\
    length history = 2 /\
    dict_get (output line_result) (KInt 0) = nth_error history 0 /\
    dict_get (output line_result) (KInt 1) = nth_error history 1.
Proof.
  intro self.
  eassert (Hrun : _schedule_line_runs exec_line process_line apply_default
                   expression output_key self 7 VNone (VStr "run") 0
                 = (2, _, inr _)).
  { vm_compute. reflexivity. }
  destruct (C6_history_key_round_trip _ _ _ _ _ _ _ _ _ _ Hrun)
    as (history & H1 & H2 & H3 & _).
  eexists _, _, history. split; [exact Hrun|].
  split; [exact H1|]. split; [exact H2|].
  split; [exact (H3 0)|exact (H3 1)].
Defined.

Lemma C7_line_result_assembly_witness :
  let self :=
    {| _storage := (None : option unit);
       _max_turn := Some 4%Z;
       _chat_group_roles := [role_A "bye"; role_B "bye"];
       _max_lines_count := None;
       _executor_proxies := ["A.yaml"; "B.yaml"]%string |} in
  exists evs line_result last,
    _schedule_line_runs exec_line process_line apply_default
      expression output_key self 7 VNone (VStr "run") 0
    = (2, evs, inr line_result) /\
    last_result (exec_results evs) = Some last /\
    run_info line_result = run_info last /\
    node_run_infos line_result = node_run_infos last.
Proof.
  intro self.
  eassert (Hrun : _schedule_line_runs exec_line process_line apply_default
                   expression output_key self 7 VNone (VStr "run") 0
                 = (2, _, inr _)).
  { vm_compute. reflexivity. }
  destruct (C7_line_result_assembly _ _ _ _ _ _ _ _ _ _ Hrun)
    as (history & last & _ & _ & _ & _ & _ & H1 & H2 & H3).
  eexists _, _, last. split; [exact Hrun|]. auto.
Defined.

Lemma C8_max_turn_zero_reaches_assembly_witness :
  exists self evs0,
    __init__ create_proxy [role_A "bye"; role_B "bye"] (Some 0%Z)
             (None : option unit) None [] 0 = (0, evs0, inr self) /\
    _schedule_line_runs exec_line process_line apply_default
      expression output_key self 7 VNone (VStr "run") 0
    = (0, [], inl AttributeError).
Proof.
  eexists _, _. split; [vm_compute; reflexivity|].
  eapply (C8_max_turn_zero_reaches_assembly
            create_proxy exec_line process_line apply_default
            expression output_key
            [role_A "bye"; role_B "bye"] (None : option unit) None [] 0).
  - vm_compute; reflexivity.
  - vm_compute; reflexivity.
Defined.

(** C9 as the claim has it fails: when the teardown of the first handle
    raises, the second handle is not destroyed and the exception is not
    collected but raised. *)
Lemma C9_destroy_stops_at_first_failure :
  let self :=
    {| _storage := (None : option unit);
       _max_turn := Some 4%Z;
       _chat_group_roles := [role_A "bye"; role_B "bye"];
       _max_lines_count := None;
       _executor_proxies := ["A.yaml"; "B.yaml"]%string |} in
  destroy destroy_A_fails self 0
  = (0, [EvDestroy "A.yaml"%string (inl (ExternalError "destroy failed"))],
     inl (ExternalError "destroy failed")) /\
  destroyed (snd (fst (destroy destroy_A_fails self 0)))
  <> _executor_proxies self.
Proof.
  intro self. split; [reflexivity|].
  vm_compute. discriminate.
Qed.

Lemma C10_role_field_overwrites_kind_witness :
  match _process_flow_outputs 0 (role_A "bye")
          {| output := [(KStr "msg", VStr "hi"); (KStr "role", VStr "system")];
             aggregation_inputs := [];
             run_info := VNone;
             node_run_infos := VNone |} [] [] [] with
  | (history', outs', _) =>
      exists record,
        history' = [] ++ [VDict record] /\
        dict_get outs' (KInt 0) = Some (VDict record) /\
        dict_get record (KStr "role") = Some (VStr "system") /\
        (VStr "system" <> VStr (role (role_A "bye")) ->
         dict_get record (KStr "role") <> Some (VStr (role (role_A "bye"))))
  end.
Proof.
  apply (C10_role_field_overwrites_kind 0 (role_A "bye")
           {| output := [(KStr "msg", VStr "hi"); (KStr "role", VStr "system")];
              aggregation_inputs := [];
              run_info := VNone;
              node_run_infos := VNone |} [] [] []).
  - reflexivity.
  - reflexivity.
Defined.

(** *** Further properties on the scripted conversation *)

Lemma X1_init_creates_one_proxy_per_role_witness :
  exists w' self,
    __init__ create_proxy [role_A "bye"; role_B "bye"] (Some 4%Z)
             (None : option unit) None [] 0
    = (w',
       map (fun rp => EvCreate (fst rp) (inr (snd rp)))
           (combine [role_A "bye"; role_B "bye"] (_executor_proxies self)),
       inr self) /\
    length (_executor_proxies self) = 2.
Proof.
  destruct (X1_init_creates_one_proxy_per_role
              create_proxy [role_A "bye"; role_B "bye"] (Some 4%Z)
              (None : option unit) None [] 0)
    as (w' & self & H & _ & _ & _ & _ & Hlen).
  - simpl. lia.
  - intros r w0 _. eexists _, _. reflexivity.
  - exists w', self. split; [exact H|exact Hlen].
Defined.

Lemma X2_init_failure_leaves_created_proxies_witness :
  exists evs,
    __init__ create_proxy_B_fails
             [role_A "bye"; role_B "bye"; role_A "bye"] (Some 4%Z)
             (None : option unit) None [] 0
    = (0, evs, inl (ExternalError "no such flow")) /\
    created evs = ["A.yaml"%string] /\
    destroyed evs = [].
Proof.
  eexists. split; [vm_compute; reflexivity|].
  edestruct (X2_init_failure_leaves_created_proxies
               create_proxy_B_fails
               [role_A "bye"; role_B "bye"; role_A "bye"] (Some 4%Z)
               (None : option unit) None [] 0)
    as (before & r & after & ps & w1 & _ & _ & _ & _ & _ & Hd).
  - simpl. lia.
  - vm_compute. reflexivity.
  - split; [reflexivity|exact Hd].
Defined.

Lemma X3_destroy_after_init_witness :
  exists self evs0 evs,
    __init__ create_proxy [role_A "bye"; role_B "bye"] (Some 4%Z)
             (None : option unit) None [] 0 = (0, evs0, inr self) /\
    destroy destroy_ok self 0 = (0, evs, inr tt) /\
    destroyed evs = created evs0 /\
    length evs = 2.
Proof.
  eexists _, _, _.
  split; [vm_compute; reflexivity|]. split; [vm_compute; reflexivity|].
  epose proof (X3_destroy_after_init
                 create_proxy destroy_ok
                 [role_A "bye"; role_B "bye"] (Some 4%Z)
                 (None : option unit) None [] 0 0) as H.
  edestruct H as (H1 & H2 & _).
  - vm_compute. reflexivity.
  - vm_compute. reflexivity.
  - split; [exact H1|exact H2].
Defined.

Lemma X4_process_batch_inputs_result_witness :
  let self :=
    {| _storage := (None : option unit);
       _max_turn := Some 4%Z;
       _chat_group_roles := [role_A "bye"; role_B "bye"];
       _max_lines_count := None;
       _executor_proxies := ["A.yaml"; "B.yaml"]%string |} in
  exists batch,
    _process_batch_inputs (W := nat) process_line apply_default expression
                          self VNone 0
    = (0, [], inr batch) /\
    length batch = 2.
Proof.
  intro self. eexists.
  eassert (H : _process_batch_inputs (W := nat) process_line apply_default
                 expression self VNone 0 = (0, [], inr _)).
  { vm_compute. reflexivity. }
  split; [exact H|].
  exact (proj1 (proj2 (X4_process_batch_inputs_result _ _ _ _ _ _ H))).
Defined.

Lemma X5_process_batch_inputs_accepts_witness :
  let self :=
    {| _storage := (None : option unit);
       _max_turn := Some 4%Z;
       _chat_group_roles := [role_A "bye"; role_B "bye"];
       _max_lines_count := None;
       _executor_proxies := ["A.yaml"; "B.yaml"]%string |} in
  exists w' batch,
    _process_batch_inputs (W := nat) process_line apply_default expression
                          self VNone 0
    = (w', [], inr batch) /\
    length batch = 2.
Proof.
  intro self.
  apply (X5_process_batch_inputs_accepts
           process_line apply_default expression self VNone 0).
  - reflexivity.
  - intros r w0 _. eexists _, _. reflexivity.
  - intros r d0 w0 _. eexists _, _. reflexivity.
Defined.

Lemma X6_no_positive_turn_limit_witness :
  let self :=
    {| _storage := (None : option unit);
       _max_turn := None;
       _chat_group_roles := [role_A "bye"; role_B "bye"];
       _max_lines_count := None;
       _executor_proxies := ["A.yaml"; "B.yaml"]%string |} in
  _schedule_line_runs exec_line process_line apply_default
    expression output_key self 7 VNone (VStr "run") 0
  = (0, [], inl TypeError).
Proof.
  intro self.
  eapply (X6_no_positive_turn_limit
            exec_line process_line apply_default expression output_key
            self 7 VNone (VStr "run") 0).
  - vm_compute. reflexivity.
  - exact I.
Defined.

Lemma X7_executor_exception_ends_line_witness :
  let self :=
    {| _storage := (None : option unit);
       _max_turn := Some 4%Z;
       _chat_group_roles := [role_A "bye"; role_B "bye"];
       _max_lines_count := None;
       _executor_proxies := ["A.yaml"; "B.yaml"]%string |} in
  exists evs res,
    _schedule_line_runs exec_line_B_fails process_line apply_default
      expression output_key self 7 VNone (VStr "run") 0 = (2, evs, res) /\
    res = inl (ExternalError "flow failed") /\
    length evs = 2.
Proof.
  intro self. eexists _, _.
  split; [vm_compute; reflexivity|].
  eapply (X7_executor_exception_ends_line
            exec_line_B_fails process_line apply_default expression output_key
            self 7 VNone (VStr "run") 0 1).
  - vm_compute. reflexivity.
  - reflexivity.
Defined.

Lemma X8_calls_bounded_by_max_turn_witness :
  let self :=
    {| _storage := (None : option unit);
       _max_turn := Some 3%Z;
       _chat_group_roles := [role_A "never"; role_B "never"];
       _max_lines_count := None;
       _executor_proxies := ["A.yaml"; "B.yaml"]%string |} in
  exists evs res,
    _schedule_line_runs exec_line process_line apply_default
      expression output_key self 7 VNone (VStr "run") 0 = (3, evs, res) /\
    executed_turns evs = length evs /\
    length evs <= 3.
Proof.
  intro self. eexists _, _.
  split; [vm_compute; reflexivity|].
  eapply (X8_calls_bounded_by_max_turn
            exec_line process_line apply_default expression output_key
            self 7 VNone (VStr "run") 0).
  vm_compute. reflexivity.
Defined.

Lemma X9_every_call_round_robin_witness :
  let self :=
    {| _storage := (None : option unit);
       _max_turn := Some 3%Z;
       _chat_group_roles := [role_A "never"; role_B "never"];
       _max_lines_count := None;
       _executor_proxies := ["A.yaml"; "B.yaml"]%string |} in
  exists evs res ev,
    _schedule_line_runs exec_line process_line apply_default
      expression output_key self 7 VNone (VStr "run") 0 = (3, evs, res) /\
    nth_error evs 2 = Some ev /\
    exists p input out,
      ev = EvExec p input 7 (VStr "run") out /\
      nth_error (_executor_proxies self) (2 mod 2) = Some p.
Proof.
  intro self. eexists _, _, _.
  split; [vm_compute; reflexivity|]. split; [reflexivity|].
  eapply (X9_every_call_round_robin
            exec_line process_line apply_default expression output_key
            self 7 VNone (VStr "run") 0 2).
  - vm_compute. reflexivity.
  - reflexivity.
Defined.

Lemma X10_executor_gets_previous_records_witness :
  let self :=
    {| _storage := (None : option unit);
       _max_turn := Some 4%Z;
       _chat_group_roles := [role_A "bye"; role_B "bye"];
       _max_lines_count := None;
       _executor_proxies := ["A.yaml"; "B.yaml"]%string |} in
  exists evs res p input out history,
    _schedule_line_runs exec_line process_line apply_default
      expression output_key self 7 VNone (VStr "run") 0 = (2, evs, res) /\
    nth_error evs 1 = Some (EvExec p input 7 (VStr "run") out) /\
    dict_get input (KStr "chat_history") = Some (VList history) /\
    length history = 1.
Proof.
  intro self.
  eassert (Hrun : _schedule_line_runs exec_line process_line apply_default
                    expression output_key self 7 VNone (VStr "run") 0
                  = (2, _, _)).
  { vm_compute. reflexivity. }
  match type of Hrun with
  | _ = (_, ?evs, _) =>
      eassert (Hev : nth_error evs 1 = Some (EvExec _ _ 7 (VStr "run") _));
        [reflexivity|]
  end.
  destruct (X10_executor_gets_previous_records
              _ _ _ _ _ _ _ _ _ _ 1 (r := role_B "bye")
              (k := KStr "chat_history") Hrun Hev)
    as (history & H1 & H2 & _).
  - reflexivity.
  - reflexivity.
  - eexists _, _, _, _, _, history.
    split; [exact Hrun|]. split; [exact Hev|]. split; [exact H1|exact H2].
Defined.

Lemma X11_other_inputs_as_resolved_witness :
  let self :=
    {| _storage := (None : option unit);
       _max_turn := Some 4%Z;
       _chat_group_roles := [role_A "bye"; role_B "bye"];
       _max_lines_count := None;
       _executor_proxies := ["A.yaml"; "B.yaml"]%string |} in
  exists evs res p input out,
    _schedule_line_runs exec_line process_line apply_default
      expression output_key self 7 VNone (VStr "run") 0 = (2, evs, res) /\
    nth_error evs 1 = Some (EvExec p input 7 (VStr "run") out) /\
    dict_get input (KStr "question") = Some (VStr "${data.question}").
Proof.
  intro self.
  eassert (Hb : _process_batch_inputs (W := nat) process_line apply_default
                  expression self VNone 0 = (0, [], inr _)).
  { vm_compute. reflexivity. }
  eassert (Hrun : _schedule_line_runs exec_line process_line apply_default
                    expression output_key self 7 VNone (VStr "run") 0
                  = (2, _, _)).
  { vm_compute. reflexivity. }
  match type of Hrun with
  | _ = (_, ?evs, _) =>
      eassert (Hev : nth_error evs 1 = Some (EvExec _ _ 7 (VStr "run") _));
        [reflexivity|]
  end.
  destruct (X11_other_inputs_as_resolved
              _ _ _ _ _ _ _ _ _ _ 1 (r := role_B "bye")
              (k := KStr "chat_history") Hb Hrun Hev)
    as (resolved & H1 & H2).
  - reflexivity.
  - reflexivity.
  - eexists _, _, _, _, _.
    split; [exact Hrun|]. split; [exact Hev|].
    rewrite (H2 (KStr "question")) by discriminate.
    vm_compute in H1. injection H1 as <-. reflexivity.
Defined.

Lemma X12_early_exit_only_by_stop_signal_witness :
  let self :=
    {| _storage := (None : option unit);
       _max_turn := Some 4%Z;
       _chat_group_roles := [role_A "bye"; role_B "bye"];
       _max_lines_count := None;
       _executor_proxies := ["A.yaml"; "B.yaml"]%string |} in
  exists evs line_result,
    _schedule_line_runs exec_line process_line apply_default
      expression output_key self 7 VNone (VStr "run") 0
    = (2, evs, inr line_result) /\
    turns_without_stop self 0 (removelast evs) = true /\
    (length evs = Z.to_nat 4 \/
     exists r last,
       active_role self (pred (length evs)) = Some r /\
       last_result (exec_results evs) = Some last /\
       stop_matched r last = true).
Proof.
  intro self. eexists _, _.
  split; [vm_compute; reflexivity|].
  eapply (X12_early_exit_only_by_stop_signal
            exec_line process_line apply_default expression output_key
            self 7 VNone (VStr "run") 0).
  - vm_compute. reflexivity.
  - reflexivity.
Defined.

Lemma X13_why_a_line_fails_witness :
  exists self evs0 evs e,
    __init__ create_proxy [role_A "bye"; role_B "bye"] (Some 4%Z)
             (None : option unit) None [] 0 = (0, evs0, inr self) /\
    _schedule_line_runs exec_line_B_fails process_line apply_default
      expression output_key self 7 VNone (VStr "run") 0 = (2, evs, inl e) /\
    ((Some 4%Z = None /\ e = TypeError /\ evs = []) \/
     (exists m, Some 4%Z = Some m /\ (m <= 0)%Z /\
                e = AttributeError /\ evs = []) \/
     (exists evs1 p input w2,
         evs = evs1 ++ [EvExec p input 7 (VStr "run") (inl e)] /\
         In p (_executor_proxies self) /\
         exec_line_B_fails p input 7 (VStr "run") w2 = (2, inl e))).
Proof.
  eexists _, _, _, _.
  split; [vm_compute; reflexivity|]. split; [vm_compute; reflexivity|].
  eapply (X13_why_a_line_fails
            create_proxy exec_line_B_fails process_line apply_default
            expression output_key
            [role_A "bye"; role_B "bye"] (Some 4%Z)
            (None : option unit) None [] 0 7 VNone (VStr "run") 0).
  - vm_compute. reflexivity.
  - vm_compute. reflexivity.
  - vm_compute. reflexivity.
Defined.

Lemma X14_line_completes_witness :
  exists self evs0 w' evs line_result,
    __init__ create_proxy [role_A "bye"; role_B "bye"] (Some 4%Z)
             (None : option unit) None [] 0 = (0, evs0, inr self) /\
    _schedule_line_runs exec_line process_line apply_default
      expression output_key self 7 VNone (VStr "run") 0
    = (w', evs, inr line_result) /\
    1 <= length evs <= Z.to_nat 4.
Proof.
  eassert (Hinit : __init__ create_proxy [role_A "bye"; role_B "bye"]
                     (Some 4%Z) (None : option unit) None [] 0
                   = (0, _, inr _)).
  { vm_compute. reflexivity. }
  epose proof (X14_line_completes
                 create_proxy exec_line process_line apply_default
                 expression output_key _ _ _ _ _ 7 VNone (VStr "run") 0 Hinit)
    as H.
  edestruct H as (w' & evs & lr & Hrun & Hlen).
  - lia.
  - vm_compute. reflexivity.
  - intros p input w2 _. eexists _, _. reflexivity.
  - eexists _, _, w', evs, lr.
    split; [exact Hinit|]. split; [exact Hrun|exact Hlen].
Defined.

Lemma X15_record_fields_in_output_order_witness :
  match _process_flow_outputs 0 (role_A "bye")
          {| output := [(KStr "msg", VStr "hi"); (KStr "role", VStr "system");
                        (KStr "mood", VStr "calm")];
             aggregation_inputs := [];
             run_info := VNone;
             node_run_infos := VNone |} [] [] [] with
  | (history', outs', aggs') =>
      exists record,
        history' = [] ++ [VDict record] /\
        dict_keys record
        = KStr "role"
          :: filter (fun k => negb (key_eqb k (KStr "role")))
                    [KStr "msg"; KStr "role"; KStr "mood"] /\
        (forall k, k <> KStr "role" ->
                   dict_get record k
                   = dict_get [(KStr "msg", VStr "hi");
                               (KStr "role", VStr "system");
                               (KStr "mood", VStr "calm")] k) /\
        dict_get outs' (KInt 0) = Some (VDict record) /\
        dict_get aggs' (KInt 0) = Some (VDict []) /\
        (forall k, k <> KInt 0 ->
                   dict_get outs' k = dict_get [] k /\
                   dict_get aggs' k = dict_get [] k)
  end.
Proof.
  apply (X15_record_fields_in_output_order 0 (role_A "bye")
           {| output := [(KStr "msg", VStr "hi"); (KStr "role", VStr "system");
                         (KStr "mood", VStr "calm")];
              aggregation_inputs := [];
              run_info := VNone;
              node_run_infos := VNone |} [] [] []).
  reflexivity.
Defined.
